(** * carousel: a peeking single-row card carousel (package [carousel])

    A shallow embedding of [carousel/carousel.go] and the properties of its
    layout arithmetic, its cursor state machine and its clipping helpers.

    Conventions of the embedding

    - Go's [int] is the 64-bit two's-complement integer of the usual targets;
      it is modelled as [Z] with the wrap-around of every [+], [-] and [*]
      written out ([GoInt.wrap]); [/] is Go's division, truncated toward zero.
    - Go strings are byte strings: [string] of the Standard Library.
    - A slice is a list together with the distinction between [nil] and an
      empty slice, which the code tests ([items == nil]).
    - A run-time panic (index out of range, method call on a nil interface)
      is an explicit result, and the calls [View] makes to its collaborators
      (the delegate, the styling library) are recorded in a call log.
    - The libraries [lipgloss] and [xansi] are interfaces; what the clipper
      needs of [xansi] is stated as a contract ([XansiContract]). *)

From Stdlib Require Import ZArith Lia List Bool Ascii String.
From Stdlib Require Import Numbers.DecimalString.
Import ListNotations.

Open Scope Z_scope.

(** ** Go's [int] *)

Module GoInt.

Definition bits : Z := 64.
Definition modulus : Z := 2 ^ bits.
Definition min_int : Z := - 2 ^ (bits - 1).
Definition max_int : Z := 2 ^ (bits - 1) - 1.

(** Two's-complement reduction of a mathematical integer to an [int]. *)
Definition wrap (z : Z) : Z := (z - min_int) mod modulus + min_int.

Definition in_range (z : Z) : Prop := min_int <= z <= max_int.

Definition add (a b : Z) : Z := wrap (a + b).
Definition sub (a b : Z) : Z := wrap (a - b).
Definition mul (a b : Z) : Z := wrap (a * b).
(** [a / b] for a divisor that is neither [0] nor [-1] (the code only
    divides by the constants 2 and 10): truncation toward zero. *)
Definition div (a b : Z) : Z := wrap (Z.quot a b).

End GoInt.

(** ** Layout constants *)

Definition minPeekW : Z := 8.
Definition carouselGap : Z := 2.
Definition maxCenterW : Z := 44.

(** ** The layout arithmetic at the start of [Model.View]

    [View] computes [usable], [centerW], [peekW] and [cardContentH] from
    [m.width] before it renders anything; each local is a function of the
    width here, written with the statements of the source. *)

Module Layout.
Import GoInt.

(** [usable := m.width - 6] *)
Definition usable (width : Z) : Z := sub width 6.

(** [centerW := usable - 2*(minPeekW+carouselGap)], then the two clamps. *)
Definition centerW (width : Z) : Z :=
  let centerW := sub (usable width) (mul 2 (add minPeekW carouselGap)) in
  let centerW := if centerW >? maxCenterW then maxCenterW else centerW in
  let centerW := if centerW <? 24 then 24 else centerW in
  centerW.

(** [peekW := (usable - centerW - 2*carouselGap) / 2], before the clamps. *)
Definition peekW_raw (width : Z) : Z :=
  div (sub (sub (usable width) (centerW width)) (mul 2 carouselGap)) 2.

(** [maxPeek := (centerW + 2) / 2] *)
Definition maxPeek (width : Z) : Z := div (add (centerW width) 2) 2.

(** [peekW] after [if peekW > maxPeek] and [if peekW < minPeekW]. *)
Definition peekW (width : Z) : Z :=
  let peekW := peekW_raw width in
  let peekW := if peekW >? maxPeek width then maxPeek width else peekW in
  let peekW := if peekW <? minPeekW then minPeekW else peekW in
  peekW.

(** [totalCardW := centerW + 2; cardContentH := totalCardW * 3 / 10],
    then the floor of 8 rows. *)
Definition cardContentH (width : Z) : Z :=
  let totalCardW := add (centerW width) 2 in
  let cardContentH := div (mul totalCardW 3) 10 in
  let cardContentH := if cardContentH <? 8 then 8 else cardContentH in
  cardContentH.

End Layout.

(** ** Go's [strings] package, as far as the code uses it *)

Open Scope string_scope.

(** The one-byte string ["\n"]. *)
Definition NL : string := String "010"%char "".

(** [strings.Split(s, sep)] for a one-byte separator [sep] (the code only
    splits at ["\n"]): the pieces between the separators, [[""]] for the
    empty string. *)
Fixpoint strings_Split (s : string) (sep : ascii) : list string :=
  match s with
  | EmptyString => [""]
  | String c s' =>
      if Ascii.eqb c sep then "" :: strings_Split s' sep
      else match strings_Split s' sep with
           | [] => [String c ""]
           | piece :: pieces => String c piece :: pieces
           end
  end.

(** [strings.Join(elems, sep)] *)
Fixpoint strings_Join (elems : list string) (sep : string) : string :=
  match elems with
  | [] => ""
  | [e] => e
  | e :: rest => e ++ sep ++ strings_Join rest sep
  end.

(** [strings.Repeat(s, count)] for [count >= 0]. *)
Definition strings_Repeat (s : string) (count : Z) : string :=
  String.concat "" (repeat s (Z.to_nat count)).

(** [fmt.Sprintf("%d", z)] *)
Definition fmt_d (z : Z) : string := NilZero.string_of_int (Z.to_int z).

(** A string contains the byte [c]. *)
Fixpoint contains_byte (c : ascii) (s : string) : bool :=
  match s with
  | EmptyString => false
  | String c' s' => Ascii.eqb c' c || contains_byte c s'
  end.

(** ** Results and panics *)

Inductive Res (A : Type) : Type :=
| Ok (a : A)
| Panic (why : string).
Arguments Ok {A} a.
Arguments Panic {A} why.

Definition res_bind {A B} (r : Res A) (f : A -> Res B) : Res B :=
  match r with
  | Ok a => f a
  | Panic why => Panic why
  end.

(** ** Slices *)

Inductive slice (A : Type) : Type :=
| nil_slice
| mk_slice (l : list A).
Arguments nil_slice {A}.
Arguments mk_slice {A} l.

Definition elems {A} (s : slice A) : list A :=
  match s with
  | nil_slice => []
  | mk_slice l => l
  end.

(** [len(s)] *)
Definition len {A} (s : slice A) : Z := Z.of_nat (List.length (elems s)).

(** [s == nil] *)
Definition is_nil {A} (s : slice A) : bool :=
  match s with
  | nil_slice => true
  | mk_slice _ => false
  end.

(** [s[i]]: panics when [i] is not an index of [s]. *)
Definition index {A} (s : slice A) (i : Z) : Res A :=
  if (i <? 0)%Z || (i >=? len s)%Z then Panic "index out of range"
  else match nth_error (elems s) (Z.to_nat i) with
       | Some a => Ok a
       | None => Panic "index out of range"
       end.

(** ** The styling library [lipgloss] and the ANSI helpers [xansi]

    Both are collaborators outside the package.  A style is the chain of
    builder calls that made it; what [Render] draws for a style is left to
    the library. *)

Definition Color := string.

Inductive BorderKind := RoundedBorder.

Inductive StyleOpt :=
| Foreground (c : Color)
| Bold (b : bool)
| Border (b : BorderKind)
| BorderForeground (c : Color)
| Width (w : Z)
| Height (h : Z)
| Padding (vertical horizontal : Z).

Definition Style := list StyleOpt.

(** [lipgloss.NewStyle()] and a builder call on a style. *)
Definition NewStyle : Style := [].
Definition with_opt (st : Style) (o : StyleOpt) : Style := (st ++ [o])%list.
Notation "st '.>' o" := (with_opt st o) (at level 40, left associativity).

Inductive Position := Top.

Class Lipgloss := {
  Style_Render : Style -> string -> string;
  JoinHorizontal : Position -> list string -> string
}.

Class Xansi := {
  StringWidth : string -> Z;
  Truncate : string -> Z -> string -> string;
  TruncateLeft : string -> Z -> string -> string
}.

(** A test instance of [Xansi] for ASCII text with colour codes: a byte
    outside an escape sequence is one column, an escape sequence ([ESC [ ...]
    up to its final byte, or [ESC] and one more byte) is none.  [Truncate]
    keeps the first [n] columns and [TruncateLeft] drops the first [n]
    columns; both keep the escape sequences of the part they remove. *)
Inductive ansi_state := Ground | Escape | Csi.

Definition ESC : ascii := "027"%char.

Definition is_final_byte (c : ascii) : bool :=
  (64 <=? nat_of_ascii c)%nat && (nat_of_ascii c <=? 126)%nat.

(** The next state, and whether the byte is a printed column. *)
Definition ansi_step (st : ansi_state) (c : ascii) : ansi_state * bool :=
  match st with
  | Ground => if Ascii.eqb c ESC then (Escape, false) else (Ground, true)
  | Escape => if Ascii.eqb c "["%char then (Csi, false) else (Ground, false)
  | Csi => if is_final_byte c then (Ground, false) else (Csi, false)
  end.

Fixpoint ansi_width (st : ansi_state) (s : string) : nat :=
  match s with
  | EmptyString => O
  | String c s' =>
      let (st', printed) := ansi_step st c in
      if printed then S (ansi_width st' s') else ansi_width st' s'
  end.

Fixpoint ansi_drop (st : ansi_state) (n : nat) (s : string) : string :=
  match s with
  | EmptyString => EmptyString
  | String c s' =>
      let (st', printed) := ansi_step st c in
      if printed then
        match n with
        | O => s
        | S n' => ansi_drop st' n' s'
        end
      else String c (ansi_drop st' n s')
  end.

Fixpoint ansi_take (st : ansi_state) (n : nat) (s : string) : string :=
  match s with
  | EmptyString => EmptyString
  | String c s' =>
      let (st', printed) := ansi_step st c in
      if printed then
        match n with
        | O => ansi_take st' O s'
        | S n' => String c (ansi_take st' n' s')
        end
      else String c (ansi_take st' n s')
  end.

Definition ansi_StringWidth (s : string) : Z := Z.of_nat (ansi_width Ground s).

Definition ansi_Truncate (s : string) (n : Z) (tail : string) : string :=
  if (ansi_StringWidth s <=? n)%Z then s
  else ansi_take Ground (Z.to_nat n) s ++ tail.

Definition ansi_TruncateLeft (s : string) (n : Z) (prefix : string) : string :=
  if (n <=? 0)%Z then s
  else prefix ++ ansi_drop Ground (Z.to_nat n) s.

Definition ansi_xansi : Xansi :=
  {| StringWidth := ansi_StringWidth;
     Truncate := ansi_Truncate;
     TruncateLeft := ansi_TruncateLeft |}.

(** Modelled from the spec: the source of [xansi]
    (github.com/charmbracelet/x/ansi) is a third-party dependency and not
    part of the repository.  The spec has the clipper measure width by
    visible columns and keep the rightmost columns of a line; for the two
    functions [peekRight] calls this is: a width is a non-negative column
    count; [TruncateLeft(line, k, "")] removes exactly the leftmost [k]
    visible columns of a line that has at least [k]; and it adds no line
    break to a line that has none. *)
Record XansiContract (X : Xansi) : Prop := {
  width_nonneg : forall line, (0 <= StringWidth line)%Z;
  TruncateLeft_width : forall line k,
    (0 < k <= StringWidth line)%Z ->
    StringWidth (TruncateLeft line k "") = (StringWidth line - k)%Z;
  TruncateLeft_clean : forall line k,
    contains_byte "010" line = false ->
    contains_byte "010" (TruncateLeft line k "") = false
}.

(** ** The clipping helpers *)

Section Clipper.
Context {X : Xansi}.

(** [peekLeft] clips a rendered multi-line block to its leftmost [n]
    visible columns. *)
Definition peekLeft (s : string) (n : Z) : string :=
  let lines := strings_Split s "010" in
  let lines := map (fun line => Truncate line n "") lines in
  strings_Join lines NL.

(** The body of the loop of [peekRight] for one line. *)
Definition peekRight_line (n : Z) (line : string) : string :=
  let w := StringWidth line in
  if (w >? n)%Z then TruncateLeft line (GoInt.sub w n) "" else line.

(** [peekRight] clips a rendered multi-line block to its rightmost [n]
    visible columns. *)
Definition peekRight (s : string) (n : Z) : string :=
  let lines := strings_Split s "010" in
  let lines := map (peekRight_line n) lines in
  strings_Join lines NL.

End Clipper.

(** ** The carousel *)

Section Carousel.
(** The item type: Go's [any].  The carousel never inspects an item. *)
Context {any : Type}.

(** [ItemDelegate] handles item-specific rendering for carousel cards. *)
Record ItemDelegate := {
  Render : any -> Z -> string;
  IsMarked : any -> bool
}.

(** [ItemSelectedMsg] is emitted when the user selects the active card. *)
Record ItemSelectedMsg := {
  Index : Z;
  Item : any
}.

(** A [tea.Cmd] is a [func() tea.Msg]; [nil] is [None] at its uses.  The
    only messages this package makes are [ItemSelectedMsg]s. *)
Definition Cmd := unit -> ItemSelectedMsg.

(** [Config]: [Delegate] is an interface value and may be [nil]. *)
Record Config := {
  Items : slice any;
  Delegate : option ItemDelegate;
  Title : string;
  ActiveColor : Color;
  MarkedColor : Color;
  DefaultColor : Color;
  ExtraFooter : string
}.

(** [Model] is the carousel state. *)
Record Model := {
  items : slice any;
  delegate : option ItemDelegate;
  title : string;
  activeColor : Color;
  markedColor : Color;
  defaultColor : Color;
  extraFooter : string;
  cursor : Z;
  width : Z;
  height : Z
}.

(** Assignments to single fields of a model. *)
Definition set_cursor (m : Model) (c : Z) : Model :=
  {| items := items m; delegate := delegate m; title := title m;
     activeColor := activeColor m; markedColor := markedColor m;
     defaultColor := defaultColor m; extraFooter := extraFooter m;
     cursor := c; width := width m; height := height m |}.

Definition set_items (m : Model) (s : slice any) : Model :=
  {| items := s; delegate := delegate m; title := title m;
     activeColor := activeColor m; markedColor := markedColor m;
     defaultColor := defaultColor m; extraFooter := extraFooter m;
     cursor := cursor m; width := width m; height := height m |}.

Definition set_size (m : Model) (w h : Z) : Model :=
  {| items := items m; delegate := delegate m; title := title m;
     activeColor := activeColor m; markedColor := markedColor m;
     defaultColor := defaultColor m; extraFooter := extraFooter m;
     cursor := cursor m; width := w; height := h |}.

(** [New] creates a new Model from [cfg]; the fields it does not name
    ([cursor], [width], [height]) are zero. *)
Definition New (cfg : Config) : Model :=
  let activeColor :=
    if String.eqb (ActiveColor cfg) "" then "#fb6820" else ActiveColor cfg in
  let markedColor :=
    if String.eqb (MarkedColor cfg) "" then "28" else MarkedColor cfg in
  let defaultColor :=
    if String.eqb (DefaultColor cfg) "" then "240" else DefaultColor cfg in
  let items := if is_nil (Items cfg) then mk_slice [] else Items cfg in
  {| items := items; delegate := Delegate cfg; title := Title cfg;
     activeColor := activeColor; markedColor := markedColor;
     defaultColor := defaultColor; extraFooter := ExtraFooter cfg;
     cursor := 0; width := 0; height := 0 |}.

(** *** [Update] *)

Section Update.
(** A [tea.KeyMsg] is observed only through its [String()] method. *)
Context {KeyMsg : Type} (KeyMsg_String : KeyMsg -> string).

Definition Update (m : Model) (msg : KeyMsg)
  : Res (Model * option Cmd) :=
  let n := len (items m) in
  if (n =? 0)%Z then Ok (m, None)
  else
    let key := KeyMsg_String msg in
    if String.eqb key "left" || String.eqb key "h" then
      let m := if (cursor m >? 0)%Z
               then set_cursor m (GoInt.sub (cursor m) 1) else m in
      Ok (m, None)
    else if String.eqb key "right" || String.eqb key "l" then
      let m := if (cursor m <? GoInt.sub n 1)%Z
               then set_cursor m (GoInt.add (cursor m) 1) else m in
      Ok (m, None)
    else if String.eqb key "down" || String.eqb key "j"
            || String.eqb key "enter" || String.eqb key " " then
      let idx := cursor m in
      res_bind (index (items m) idx) (fun item =>
      Ok (m, Some (fun _ : unit => {| Index := idx; Item := item |})))
    else Ok (m, None).

(** Feeding a sequence of key messages through [Update], as the host
    loop does; the commands are dropped. *)
Fixpoint Update_all (m : Model) (msgs : list KeyMsg) : Res Model :=
  match msgs with
  | [] => Ok m
  | msg :: rest =>
      res_bind (Update m msg) (fun r => Update_all (fst r) rest)
  end.

End Update.

(** *** Accessors and mutators *)

Definition Cursor (m : Model) : Z := cursor m.

Definition SetCursor (m : Model) (idx : Z) : Model :=
  let idx := if (idx <? 0)%Z then 0%Z else idx in
  let n := len (items m) in
  let idx := if (n >? 0)%Z && (idx >=? n)%Z then GoInt.sub n 1 else idx in
  set_cursor m idx.

Definition SetSize (m : Model) (width height : Z) : Model :=
  set_size m width height.

(** [Model.Items] (the name [Items] is the field of [Config] here). *)
Definition Model_Items (m : Model) : slice any := items m.

Definition SetItems (m : Model) (items : slice any) : Model :=
  let items := if is_nil items then mk_slice [] else items in
  let m := set_items m items in
  let n := len items in
  if (n >? 0)%Z && (cursor m >=? n)%Z
  then set_cursor m (GoInt.sub n 1) else m.

(** *** Rendering: computations that log their calls and may panic *)

Inductive Call :=
| CallRender (item : any) (innerW : Z)
| CallIsMarked (item : any)
| CallStyleRender (st : Style) (content : string)
| CallJoinHorizontal (pos : Position) (blocks : list string).

Definition M (A : Type) : Type := (list Call * Res A)%type.

Definition ret {A} (a : A) : M A := ([], Ok a).

Definition bind {A B} (c : M A) (f : A -> M B) : M B :=
  match c with
  | (log, Ok a) => let (log', r) := f a in ((log ++ log')%list, r)
  | (log, Panic why) => (log, Panic why)
  end.

Definition lift {A} (r : Res A) : M A := ([], r).

Local Notation "x <- c ;; k" := (bind c (fun x => k))
  (at level 61, c at next level, right associativity).

Fixpoint mapM {A B} (f : A -> M B) (l : list A) : M (list B) :=
  match l with
  | [] => ret []
  | a :: rest => b <- f a ;; bs <- mapM f rest ;; ret (b :: bs)
  end.

(** Method calls on the delegate: a nil delegate panics. *)
Definition delegate_Render (d : option ItemDelegate) (item : any)
    (innerW : Z) : M string :=
  match d with
  | None => lift (Panic "nil pointer dereference")
  | Some d => ([CallRender item innerW], Ok (Render d item innerW))
  end.

Definition delegate_IsMarked (d : option ItemDelegate) (item : any)
    : M bool :=
  match d with
  | None => lift (Panic "nil pointer dereference")
  | Some d => ([CallIsMarked item], Ok (IsMarked d item))
  end.

(** [MarkedCount] returns the number of items for which
    [Delegate.IsMarked] is true. *)
Fixpoint MarkedCount_loop (d : option ItemDelegate) (l : list any)
    (count : Z) : M Z :=
  match l with
  | [] => ret count
  | item :: rest =>
      marked <- delegate_IsMarked d item ;;
      MarkedCount_loop d rest (if marked then GoInt.add count 1 else count)
  end.

Definition MarkedCount (m : Model) : M Z :=
  MarkedCount_loop (delegate m) (elems (items m)) 0.

(** The [switch cur] of the footer in [View]. *)
Definition View_navHint (cur n : Z) : string :=
  if (cur =? 0)%Z then "→ Navigate"
  else if (cur =? GoInt.sub n 1)%Z then "← Navigate"
  else "←→ Navigate".

Section Rendering.
Context {L : Lipgloss} {X : Xansi}.

Definition style_render (st : Style) (content : string) : M string :=
  ([CallStyleRender st content], Ok (Style_Render st content)).

Definition join_horizontal (pos : Position) (blocks : list string)
    : M string :=
  ([CallJoinHorizontal pos blocks], Ok (JoinHorizontal pos blocks)).

(** [renderCard] renders a single carousel card at position [i]. *)
Definition renderCard (m : Model) (i cardW cardH : Z) (active : bool)
    : M string :=
  item <- lift (index (items m) i) ;;
  let inner := GoInt.sub cardW 2 in
  content <- delegate_Render (delegate m) item inner ;;
  style <-
    (if active then
       ret (NewStyle .> Border RoundedBorder
                     .> BorderForeground (activeColor m)
                     .> Width cardW .> Height cardH .> Padding 1 1)
     else
       marked <- delegate_IsMarked (delegate m) item ;;
       if marked then
         ret (NewStyle .> Border RoundedBorder
                       .> BorderForeground (markedColor m)
                       .> Foreground "242"
                       .> Width cardW .> Height cardH .> Padding 1 1)
       else
         ret (NewStyle .> Border RoundedBorder
                       .> BorderForeground (defaultColor m)
                       .> Foreground "242"
                       .> Width cardW .> Height cardH .> Padding 1 1)) ;;
  style_render style content.

(** [renderFooter] renders the keyboard hint bar. *)
Definition renderFooter (m : Model) (navHint : string) : M string :=
  let dimStyle := NewStyle .> Foreground "240" in
  sep <- style_render dimStyle " • " ;;
  p1 <- style_render dimStyle navHint ;;
  p2 <- style_render dimStyle "Enter/↓ Select" ;;
  p3 <- style_render dimStyle "Esc Back" ;;
  let parts := [p1; p2; p3] in
  parts <-
    (if negb (String.eqb (extraFooter m) "") then
       p4 <- style_render dimStyle (extraFooter m) ;;
       ret (parts ++ [p4])%list
     else ret parts) ;;
  style_render (NewStyle .> Padding 0 1) (strings_Join parts sep).

(** [ghostCard] renders a blank placeholder card with a very dim
    border. *)
Definition ghostCard (cardW cardH : Z) : M string :=
  style_render (NewStyle .> Border RoundedBorder
                         .> BorderForeground "235"
                         .> Width cardW .> Height cardH) "".

(** [View] renders the carousel to a string ready for display. *)
Definition View (m : Model) : M string :=
  let n := len (items m) in
  if (n =? 0)%Z then ret ""
  else
    let centerW := Layout.centerW (width m) in
    let peekW := Layout.peekW (width m) in
    let cardContentH := Layout.cardContentH (width m) in
    marked <- MarkedCount m ;;
    let cur := cursor m in
    dots <- mapM (fun i =>
              if (Z.of_nat i =? cur)%Z
              then style_render (NewStyle .> Foreground (activeColor m)) "●"
              else style_render (NewStyle .> Foreground (defaultColor m)) "○")
            (seq 0 (Z.to_nat n)) ;;
    let indicator := strings_Join dots " " in
    let headerStyle := NewStyle .> Foreground "255" .> Bold true in
    let helpStyle := NewStyle .> Foreground "240" in
    h1 <- style_render headerStyle (title m) ;;
    h2 <- style_render helpStyle
            (fmt_d marked ++ "/" ++ fmt_d n ++ " saved") ;;
    let header := h1 ++ "  " ++ h2 ++ NL ++ indicator ++ NL ++ NL in
    centerCard <- renderCard m cur centerW cardContentH true ;;
    let gapBlock := strings_Repeat " " carouselGap in
    leftPeek <-
      (if (cur >? 0)%Z then
         rendered <- renderCard m (GoInt.sub cur 1) centerW cardContentH false ;;
         ret (peekRight rendered peekW)
       else
         ghost <- ghostCard centerW cardContentH ;;
         ret (peekRight ghost peekW)) ;;
    rightPeek <-
      (if (cur <? GoInt.sub n 1)%Z then
         rendered <- renderCard m (GoInt.add cur 1) centerW cardContentH false ;;
         ret (peekLeft rendered peekW)
       else
         ghost <- ghostCard centerW cardContentH ;;
         ret (peekLeft ghost peekW)) ;;
    row <- join_horizontal Top
             [leftPeek; gapBlock; centerCard; gapBlock; rightPeek] ;;
    let navHint := View_navHint cur n in
    footer <- renderFooter m navHint ;;
    ret (header ++ row ++ NL ++ NL ++ footer).

End Rendering.

End Carousel.

Arguments ItemDelegate any : clear implicits.
Arguments ItemSelectedMsg any : clear implicits.
Arguments Cmd any : clear implicits.
Arguments Config any : clear implicits.
Arguments Model any : clear implicits.
Arguments Call any : clear implicits.

(** ** Vocabulary of the properties *)

(** The three classes of keys [Update] recognises, by [msg.String()]. *)
Definition is_left (key : string) : Prop := key = "left" \/ key = "h".
Definition is_right (key : string) : Prop := key = "right" \/ key = "l".
Definition is_select (key : string) : Prop :=
  key = "down" \/ key = "j" \/ key = "enter" \/ key = " ".

(** The invariant of the data model: [0 <= cursor < len(items)]. *)
Definition cursor_in_range {any : Type} (m : Model any) : Prop :=
  (0 <= cursor m < len (items m))%Z.

(** ** A small instance, for examples

    Items are numbers, a key message is the string its [String()] returns,
    the delegate prints the number and marks the even ones; the styling
    stand-in draws nothing around the text. *)

Definition demo_delegate : ItemDelegate nat :=
  {| Render := fun item _ => fmt_d (Z.of_nat item);
     IsMarked := fun item => Nat.even item |}.

Definition demo_config (its : slice nat) : Config nat :=
  {| Items := its; Delegate := Some demo_delegate; Title := "Shelf";
     ActiveColor := ""; MarkedColor := ""; DefaultColor := "";
     ExtraFooter := "" |}.

(** Three items, cursor 0, an 80x24 terminal. *)
Definition demo_model : Model nat :=
  SetSize (New (demo_config (mk_slice [10; 11; 12]%nat))) 80 24.

(** No items and no delegate at all. *)
Definition empty_model : Model nat :=
  New {| Items := nil_slice; Delegate := None; Title := "Shelf";
         ActiveColor := ""; MarkedColor := ""; DefaultColor := "";
         ExtraFooter := "" |}.

Definition demo_key (key : string) : string := key.

Definition plain_lipgloss : Lipgloss :=
  {| Style_Render := fun _ content => content;
     JoinHorizontal := fun _ blocks => String.concat "" blocks |}.

(** The colour code [ESC [ 3 1 m] and the reset [ESC [ 0 m]. *)
Definition red : string := String ESC "[31m".
Definition reset : string := String ESC "[0m".

(** Two lines, of 6 and of 2 columns, the first one coloured. *)
Definition demo_block : string :=
  red ++ "abc" ++ reset ++ "def" ++ NL ++ "xy".

(** ** Vocabulary of the further properties *)

(** [m'] is [m] up to its cursor. *)
Definition only_cursor_differs {any : Type} (m m' : Model any) : Prop :=
  m' = set_cursor m (cursor m').

(** Sequences of calls of the interface, as a host program makes them. *)
Section Interface.
Context {any KeyMsg : Type} (KeyMsg_String : KeyMsg -> string).

Inductive Op :=
| OpUpdate (msg : KeyMsg)
| OpSetCursor (idx : Z)
| OpSetItems (its : slice any)
| OpSetSize (w h : Z).

Definition run_op (m : Model any) (op : Op) : Res (Model any) :=
  match op with
  | OpUpdate msg =>
      res_bind (Update KeyMsg_String m msg) (fun r => Ok (fst r))
  | OpSetCursor idx => Ok (SetCursor m idx)
  | OpSetItems its => Ok (SetItems m its)
  | OpSetSize w h => Ok (SetSize m w h)
  end.

Fixpoint run_ops (m : Model any) (ops : list Op) : Res (Model any) :=
  match ops with
  | [] => Ok m
  | op :: rest => res_bind (run_op m op) (fun m' => run_ops m' rest)
  end.

(** The slices handed to [SetItems] have an [int] length. *)
Definition op_fits (op : Op) : Prop :=
  match op with
  | OpSetItems its => (len its <= GoInt.max_int)%Z
  | _ => True
  end.

End Interface.

Arguments Op any KeyMsg : clear implicits.

(** What holds of every state the interface can reach. *)
Definition reachable_shape {any : Type} (m : Model any) : Prop :=
  is_nil (items m) = false /\
  activeColor m <> "" /\ markedColor m <> "" /\ defaultColor m <> "" /\
  (len (items m) <= GoInt.max_int)%Z /\
  (0 <= cursor m)%Z /\
  ((0 < len (items m))%Z -> (cursor m < len (items m))%Z).

(** The calls of [Delegate.Render] of a call log, in order. *)
Definition render_calls {any : Type} (log : list (Call any))
    : list (any * Z) :=
  flat_map (fun c => match c with
                     | CallRender item innerW => [(item, innerW)]
                     | _ => []
                     end) log.

(** The indices of the cards [View] shows: the active card, then its left
    and its right neighbour where they exist. *)
Definition shown_indices (cur n : Z) : list Z :=
  ([cur] ++ (if (cur >? 0)%Z then [(cur - 1)%Z] else [])
         ++ (if (cur <? n - 1)%Z then [(cur + 1)%Z] else []))%list.

(** The style of a ghost card, and the calls of a log that draw one. *)
Definition ghost_style (cardW cardH : Z) : Style :=
  NewStyle .> Border RoundedBorder .> BorderForeground "235"
           .> Width cardW .> Height cardH.

Definition is_ghost_call {any : Type} (c : Call any) : bool :=
  match c with
  | CallStyleRender [Border _; BorderForeground color; Width _; Height _] _ =>
      String.eqb color "235"
  | _ => false
  end.

(** A delegate-free and a one-item instance, for examples. *)
Definition nil_delegate_model : Model nat :=
  SetItems empty_model (mk_slice [10; 11; 12]%nat).

Definition single_model : Model nat :=
  SetSize (New (demo_config (mk_slice [7]%nat))) 120 40.

Definition demo_ops : list (Op nat string) :=
  [OpSetCursor 9; OpUpdate "enter"; OpSetItems nil_slice; OpUpdate "j";
   OpSetCursor 5; OpSetItems (mk_slice [1; 2]%nat); OpUpdate "right";
   OpSetSize 10 3; OpUpdate "left"; OpUpdate " "].

(** ** A library that removes whole cells *)

(** Modelled from the spec: the source of [xansi]
    (github.com/charmbracelet/x/ansi) is a third-party dependency and not
    part of the repository.  The spec has the clipper measure width "by
    visible columns, not raw units", for styled and for multi-byte text.
    This is a library of that kind.  Outside an escape sequence a byte [c]
    starts a cell of [col c] columns, or continues the cell before it when
    [col c = 0]; an escape sequence has no column.  [TruncateLeft] removes
    cells from the left as long as their columns fit into [n]: the first
    cell that does not fit is kept whole, with all that follows, and the
    escape sequences of the removed part are kept.  [Truncate] keeps cells
    from the left as long as they fit into [n], and the escape sequences
    of the rest. *)
Section CellLibrary.
Variable col : ascii -> nat.

(** The next state, and the columns of a byte outside an escape sequence. *)
Definition cell_step (st : ansi_state) (c : ascii)
    : ansi_state * option nat :=
  match st with
  | Ground => if Ascii.eqb c ESC then (Escape, None)
              else (Ground, Some (col c))
  | Escape => if Ascii.eqb c "["%char then (Csi, None) else (Ground, None)
  | Csi => if is_final_byte c then (Ground, None) else (Csi, None)
  end.

Fixpoint cell_width (st : ansi_state) (s : string) : nat :=
  match s with
  | EmptyString => O
  | String c s' =>
      let (st', cols) := cell_step st c in
      match cols with
      | Some w => (w + cell_width st' s')%nat
      | None => cell_width st' s'
      end
  end.

Fixpoint cell_drop (st : ansi_state) (n : nat) (s : string) : string :=
  match s with
  | EmptyString => EmptyString
  | String c s' =>
      let (st', cols) := cell_step st c in
      match cols with
      | Some w => if (w <=? n)%nat then cell_drop st' (n - w) s' else s
      | None => String c (cell_drop st' n s')
      end
  end.

(** The escape sequences of a string. *)
Fixpoint cell_escapes (st : ansi_state) (s : string) : string :=
  match s with
  | EmptyString => EmptyString
  | String c s' =>
      let (st', cols) := cell_step st c in
      match cols with
      | Some _ => cell_escapes st' s'
      | None => String c (cell_escapes st' s')
      end
  end.

Fixpoint cell_take (st : ansi_state) (n : nat) (s : string) : string :=
  match s with
  | EmptyString => EmptyString
  | String c s' =>
      let (st', cols) := cell_step st c in
      match cols with
      | Some w => if (w <=? n)%nat then String c (cell_take st' (n - w) s')
                  else cell_escapes st' s'
      | None => String c (cell_take st' n s')
      end
  end.

Definition cell_StringWidth (s : string) : Z :=
  Z.of_nat (cell_width Ground s).

Definition cell_Truncate (s : string) (n : Z) (tail : string) : string :=
  if (cell_StringWidth s <=? n)%Z then s
  else cell_take Ground (Z.to_nat n) s ++ tail.

Definition cell_TruncateLeft (s : string) (n : Z) (prefix : string)
    : string :=
  if (n <=? 0)%Z then s
  else prefix ++ cell_drop Ground (Z.to_nat n) s.

Definition cell_xansi : Xansi :=
  {| StringWidth := cell_StringWidth;
     Truncate := cell_Truncate;
     TruncateLeft := cell_TruncateLeft |}.


End CellLibrary.

(** The columns of UTF-8 text, as far as the examples need them: a
    continuation byte ([80..BF]) continues its cell, a lead byte [E5..E9]
    starts a CJK ideograph (U+5000..U+9FFF), which is two columns wide, and
    any other byte starts a cell of one column. *)
Definition utf8_col (c : ascii) : nat :=
  let b := nat_of_ascii c in
  if (128 <=? b)%nat && (b <=? 191)%nat then 0%nat
  else if (229 <=? b)%nat && (b <=? 233)%nat then 2%nat
  else 1%nat.

(** Two ideographs, four columns in six bytes. *)
Definition nihon : string := "日本".

(** A coloured line of three ideographs over a line of two letters. *)
Definition wide_block : string := red ++ "日本語" ++ reset ++ NL ++ "ab".

(** * Properties *)

(** ** The integer model *)

Lemma wrap_small (z : Z) : GoInt.in_range z -> GoInt.wrap z = z.
Proof.
  unfold GoInt.in_range, GoInt.wrap, GoInt.min_int, GoInt.max_int,
    GoInt.modulus, GoInt.bits.
  intros H. rewrite Z.mod_small; lia.
Qed.

Lemma wrap_in_range (z : Z) : GoInt.in_range (GoInt.wrap z).
Proof.
  unfold GoInt.in_range, GoInt.wrap, GoInt.min_int, GoInt.max_int,
    GoInt.modulus, GoInt.bits.
  pose proof (Z.mod_pos_bound (z - - 2 ^ (64 - 1)) (2 ^ 64) ltac:(lia)).
  lia.
Qed.

(** Wrapping a non-negative integer never makes it larger. *)
Lemma wrap_nonneg_le (z : Z) : (0 <= z)%Z -> (GoInt.wrap z <= z)%Z.
Proof.
  unfold GoInt.wrap, GoInt.min_int, GoInt.modulus, GoInt.bits. intros H.
  pose proof (Z.mod_le (z - - 2 ^ (64 - 1)) (2 ^ 64) ltac:(lia) ltac:(lia)).
  lia.
Qed.

Ltac int_consts :=
  change GoInt.min_int with (-9223372036854775808)%Z in *;
  change GoInt.max_int with 9223372036854775807%Z in *.

Ltac int_range :=
  unfold GoInt.in_range in *; int_consts;
  Z.to_euclidean_division_equations; lia.

Ltac unwrap :=
  repeat (rewrite wrap_small by int_range).

(** ** Layout *)

Open Scope Z_scope.

(** The clamped center width, whatever the width was. *)
Lemma centerW_bounds (width : Z) : 24 <= Layout.centerW width <= 44.
Proof.
  unfold Layout.centerW, maxCenterW.
  set (c := GoInt.sub _ _).
  destruct (c >? 44) eqn:Hhi; simpl.
  - split; lia.
  - destruct (c <? 24) eqn:Hlo; lia.
Qed.

Lemma maxPeek_eq (width : Z) :
  Layout.maxPeek width = (Layout.centerW width + 2) / 2.
Proof.
  pose proof (centerW_bounds width) as Hc.
  unfold Layout.maxPeek, GoInt.div, GoInt.add.
  rewrite (wrap_small (Layout.centerW width + 2)) by int_range.
  rewrite Z.quot_div_nonneg by lia.
  apply wrap_small.
  assert (0 <= (Layout.centerW width + 2) / 2 <= 23).
  { split; [apply Z.div_pos; lia | apply Z.div_le_upper_bound; lia]. }
  int_range.
Qed.

Lemma maxPeek_bounds (width : Z) : 13 <= Layout.maxPeek width <= 23.
Proof.
  rewrite maxPeek_eq. pose proof (centerW_bounds width) as Hc.
  split; [apply Z.div_le_lower_bound; lia | apply Z.div_le_upper_bound; lia].
Qed.

(** The two clamps of [peekW] as a [max] of a [min]. *)
Lemma peekW_clamps (width : Z) :
  Layout.peekW width =
  Z.max minPeekW (Z.min (Layout.maxPeek width) (Layout.peekW_raw width)).
Proof.
  pose proof (maxPeek_bounds width) as Hm.
  unfold Layout.peekW, minPeekW.
  set (p := Layout.peekW_raw _).
  destruct (p >? _) eqn:E1; [destruct (_ <? 8) eqn:E2|destruct (p <? 8) eqn:E2];
    lia.
Qed.

(** [C1] For every available width (in particular every width [>= 0], and
    also every width that makes [usable = width - 6] negative) the layout
    computed at the start of [View] satisfies the four postconditions at
    once: [24 <= centerW <= 44], [peekW >= 8], [peekW <= (centerW+2)/2] and
    [cardContentH >= 8].  The layout is a total function: there is no error
    path. *)
Theorem layout_postconditions (availableWidth : Z) :
  24 <= Layout.centerW availableWidth <= 44 /\
  8 <= Layout.peekW availableWidth /\
  Layout.peekW availableWidth <= (Layout.centerW availableWidth + 2) / 2 /\
  8 <= Layout.cardContentH availableWidth.
Proof.
  pose proof (centerW_bounds availableWidth) as Hc.
  pose proof (maxPeek_bounds availableWidth) as Hm.
  split; [exact Hc|].
  rewrite <- maxPeek_eq, peekW_clamps.
  unfold Layout.cardContentH, minPeekW.
  set (h := GoInt.div _ _).
  repeat split; try lia.
  destruct (h <? 8) eqn:E; lia.
Qed.

(** Where no subtraction wraps, [usable] and [centerW] are the formulas of
    the source read over the integers. *)
Lemma usable_eq (width : Z) :
  GoInt.min_int + 6 <= width <= GoInt.max_int ->
  Layout.usable width = width - 6.
Proof. intros H. unfold Layout.usable, GoInt.sub. unwrap. reflexivity. Qed.

Lemma centerW_eq (width : Z) :
  GoInt.min_int + 26 <= width <= GoInt.max_int ->
  Layout.centerW width = Z.max 24 (Z.min 44 (width - 26)).
Proof.
  intros H. unfold Layout.centerW. rewrite usable_eq by int_range.
  unfold GoInt.sub, GoInt.mul, GoInt.add, minPeekW, carouselGap, maxCenterW.
  simpl (8 + 2). rewrite (wrap_small 10) by int_range.
  simpl (2 * 10). rewrite (wrap_small 20) by int_range.
  rewrite (wrap_small (width - 6 - 20)) by int_range.
  replace (width - 6 - 20) with (width - 26) by lia.
  destruct (width - 26 >? 44) eqn:E1;
    [change (44 <? 24) with false; cbv iota
    | destruct (width - 26 <? 24) eqn:E2]; lia.
Qed.

(** The dividend of the peek division, over the integers. *)
Lemma peek_dividend_eq (width : Z) :
  GoInt.min_int + 34 <= width <= GoInt.max_int ->
  GoInt.sub (GoInt.sub (Layout.usable width) (Layout.centerW width))
            (GoInt.mul 2 carouselGap)
  = width - 6 - Layout.centerW width - 2 * carouselGap.
Proof.
  intros H. rewrite usable_eq by int_range.
  pose proof (centerW_eq width ltac:(int_range)) as Hc.
  unfold GoInt.sub, GoInt.mul, carouselGap. simpl (2 * 2).
  rewrite (wrap_small 4) by int_range.
  rewrite (wrap_small (width - 6 - _)) by int_range.
  apply wrap_small. int_range.
Qed.

(** Where nothing wraps, the pre-clamp peek width is Go's quotient of the
    dividend read over the integers. *)
Lemma peekW_raw_eq (width : Z) :
  GoInt.min_int + 34 <= width <= GoInt.max_int ->
  Layout.peekW_raw width =
  Z.quot (width - 6 - Layout.centerW width - 2 * carouselGap) 2.
Proof.
  intros H. pose proof (centerW_bounds width) as Hc.
  unfold Layout.peekW_raw, GoInt.div. rewrite peek_dividend_eq by exact H.
  apply wrap_small. unfold carouselGap in *. int_range.
Qed.

(** The claim of a floor division fails at width 1: the dividend is
    [-5 - 24 - 4 = -33], Go's [/] gives [-16], the floor is [-17]. *)
Lemma peek_width_floor_counterexample :
  ~ (Layout.peekW_raw 1 =
     (Layout.usable 1 - Layout.centerW 1 - 2 * carouselGap) / 2).
Proof. vm_compute. discriminate. Qed.

(** [C9], amended.  For every available width for which the [int]
    arithmetic does not wrap, the pre-clamp peek width is
    [(usable - centerW - 2*gap) / 2] with Go's division, which truncates
    toward zero; it is the floor exactly when the dividend is non-negative
    or even.  It is then clamped first to at most [(centerW+2)/2] and then
    to at least [minPeekW = 8]. *)
Theorem peek_width_truncated (availableWidth : Z) :
  GoInt.min_int + 34 <= availableWidth <= GoInt.max_int ->
  let dividend :=
    availableWidth - 6 - Layout.centerW availableWidth - 2 * carouselGap in
  Layout.usable availableWidth = availableWidth - 6 /\
  Layout.peekW_raw availableWidth = Z.quot dividend 2 /\
  (0 <= dividend \/ Z.even dividend = true ->
   Layout.peekW_raw availableWidth = dividend / 2) /\
  (dividend < 0 -> Z.even dividend = false ->
   Layout.peekW_raw availableWidth = dividend / 2 + 1) /\
  Layout.peekW availableWidth =
    Z.max minPeekW
      (Z.min ((Layout.centerW availableWidth + 2) / 2)
             (Layout.peekW_raw availableWidth)).
Proof.
  intros H dividend.
  pose proof (centerW_bounds availableWidth) as Hc.
  pose proof (peekW_raw_eq availableWidth H) as Hraw. fold dividend in Hraw.
  split; [apply usable_eq; int_range|].
  split; [exact Hraw|].
  pose proof (Z.quot_rem dividend 2 ltac:(lia)) as Hq.
  pose proof (Z.rem_bound_abs dividend 2 ltac:(lia)) as Hr.
  pose proof (Z.div_mod dividend 2 ltac:(lia)) as Hd.
  pose proof (Z.mod_pos_bound dividend 2 ltac:(lia)) as Hm.
  repeat split.
  - intros [Hpos | Hev].
    + rewrite Hraw. apply Z.quot_div_nonneg; lia.
    + rewrite Hraw. rewrite Zeven_mod in Hev. apply Z.eqb_eq in Hev.
      pose proof (Z.rem_mod_eq_0 dividend 2 ltac:(lia)) as [_ Hrm].
      specialize (Hrm Hev). lia.
  - intros Hneg Hodd. rewrite Hraw.
    rewrite Zeven_mod in Hodd. apply Z.eqb_neq in Hodd.
    assert (Z.rem dividend 2 <> 0).
    { intros Hz. apply Hodd. apply Z.rem_mod_eq_0; [lia | exact Hz]. }
    pose proof (Z.rem_nonpos dividend 2 ltac:(lia) ltac:(lia)).
    lia.
  - rewrite peekW_clamps, maxPeek_eq. reflexivity.
Qed.

Lemma peek_width_truncated_witness :
  Layout.peekW_raw 1 = -16 /\ Layout.peekW 1 = 8 /\
  Layout.peekW_raw 101 = 23 /\ Layout.peekW 101 = 23.
Proof.
  pose proof (peek_width_truncated 1 ltac:(int_range)) as H1.
  pose proof (peek_width_truncated 101 ltac:(int_range)) as H2.
  cbv zeta in H1, H2.
  destruct H1 as (_ & Hr1 & _ & _ & Hp1).
  destruct H2 as (_ & Hr2 & _ & _ & Hp2).
  rewrite Hp1, Hp2, Hr1, Hr2. vm_compute. repeat split; reflexivity.
Defined.

(** The clamped peek width does not depend on the rounding: a negative
    quotient is raised to [minPeekW] either way. *)
Lemma peekW_floor_agrees (availableWidth : Z) :
  GoInt.min_int + 34 <= availableWidth <= GoInt.max_int ->
  Layout.peekW availableWidth =
    Z.max minPeekW
      (Z.min ((Layout.centerW availableWidth + 2) / 2)
             ((availableWidth - 6 - Layout.centerW availableWidth
               - 2 * carouselGap) / 2)).
Proof.
  intros H. rewrite peekW_clamps, maxPeek_eq, (peekW_raw_eq _ H).
  set (d := availableWidth - 6 - Layout.centerW availableWidth - 2 * carouselGap).
  pose proof (centerW_bounds availableWidth) as Hc.
  assert (13 <= (Layout.centerW availableWidth + 2) / 2).
  { apply Z.div_le_lower_bound; lia. }
  destruct (Z_lt_le_dec d 0) as [Hneg | Hpos].
  - assert (d / 2 < 0) by (apply Z.div_lt_upper_bound; lia).
    assert (Z.quot d 2 <= 0) by (Z.to_euclidean_division_equations; lia).
    unfold minPeekW. lia.
  - rewrite Z.quot_div_nonneg by lia. reflexivity.
Qed.

(** ** The cursor state machine *)

Open Scope string_scope.

Lemma len_nonneg {A} (s : slice A) : (0 <= len s)%Z.
Proof. unfold len. lia. Qed.

(** Inside its bounds, indexing returns the element of the list. *)
Lemma index_ok {A} (s : slice A) (i : Z) :
  (0 <= i < len s)%Z ->
  exists a, nth_error (elems s) (Z.to_nat i) = Some a /\ index s i = Ok a.
Proof.
  intros H. unfold index.
  destruct (i <? 0)%Z eqn:E1; [lia|].
  destruct (i >=? len s)%Z eqn:E2; [lia|]. simpl.
  destruct (nth_error (elems s) (Z.to_nat i)) as [a|] eqn:E.
  - exists a. split; reflexivity.
  - apply nth_error_None in E. unfold len in H. lia.
Qed.

Section StateMachine.
Context {any KeyMsg : Type} (KeyMsg_String : KeyMsg -> string).

(** One call of [Update] on a non-empty carousel whose cursor is in range
    does not panic, keeps the items and keeps the cursor in range. *)
Lemma Update_preserves (m : Model any) (msg : KeyMsg) :
  (len (items m) <= GoInt.max_int)%Z ->
  cursor_in_range m ->
  exists m' cmd,
    Update KeyMsg_String m msg = Ok (m', cmd) /\
    items m' = items m /\ cursor_in_range m'.
Proof.
  unfold cursor_in_range. intros Hlen Hinv. unfold Update.
  destruct (len (items m) =? 0)%Z eqn:En; [lia|].
  set (key := KeyMsg_String msg).
  destruct (String.eqb key "left" || String.eqb key "h") eqn:Eleft.
  { destruct (cursor m >? 0)%Z eqn:Ec.
    - eexists _, _. split; [reflexivity|]. simpl. split; [reflexivity|].
      unfold GoInt.sub. rewrite wrap_small by int_range. lia.
    - eexists _, _. split; [reflexivity|]. split; [reflexivity|]. lia. }
  destruct (String.eqb key "right" || String.eqb key "l") eqn:Eright.
  { assert (Hn1 : GoInt.sub (len (items m)) 1 = (len (items m) - 1)%Z).
    { unfold GoInt.sub. apply wrap_small. int_range. }
    rewrite Hn1.
    destruct (cursor m <? len (items m) - 1)%Z eqn:Ec.
    - eexists _, _. split; [reflexivity|]. simpl. split; [reflexivity|].
      unfold GoInt.add. rewrite wrap_small by int_range. lia.
    - eexists _, _. split; [reflexivity|]. split; [reflexivity|]. lia. }
  destruct (String.eqb key "down" || String.eqb key "j"
            || String.eqb key "enter" || String.eqb key " ") eqn:Esel.
  { destruct (index_ok (items m) (cursor m) Hinv) as (a & _ & Hidx).
    rewrite Hidx. simpl. eexists _, _. split; [reflexivity|].
    split; [reflexivity|]. lia. }
  eexists _, _. split; [reflexivity|]. split; [reflexivity|]. lia.
Qed.

(** [C2] For a non-empty item sequence and a state whose cursor satisfies
    [0 <= cursor < len(items)], every sequence of key messages fed to
    [Update] (in particular every sequence of move-left and move-right
    keys) runs without a panic and ends in a state with the same items
    whose cursor again satisfies [0 <= cursor < len(items)]. *)
Theorem cursor_invariant (msgs : list KeyMsg) (m : Model any) :
  (len (items m) <= GoInt.max_int)%Z ->
  cursor_in_range m ->
  exists m',
    Update_all KeyMsg_String m msgs = Ok m' /\
    items m' = items m /\ cursor_in_range m'.
Proof.
  revert m. induction msgs as [|msg rest IH]; intros m Hlen Hinv.
  - exists m. repeat split; try reflexivity; apply Hinv.
  - destruct (Update_preserves m msg Hlen Hinv) as (m1 & cmd & Hu & Hit & Hinv1).
    simpl. rewrite Hu. simpl.
    destruct (IH m1) as (m' & Hall & Hit' & Hinv');
      [rewrite Hit; exact Hlen | exact Hinv1 |].
    exists m'. split; [exact Hall|]. split; [congruence | exact Hinv'].
Qed.

Lemma select_key_branch (key : string) :
  is_select key ->
  (String.eqb key "left" || String.eqb key "h") = false /\
  (String.eqb key "right" || String.eqb key "l") = false /\
  (String.eqb key "down" || String.eqb key "j"
     || String.eqb key "enter" || String.eqb key " ") = true.
Proof.
  intros [H | [H | [H | H]]]; subst key; repeat split; reflexivity.
Qed.

(** [C3] For every non-empty item sequence and every cursor position [c]
    in it, [Update] with a select key (enter, down, j, space) returns the
    model unchanged together with a command that produces the selection
    event carrying exactly [(c, items[c])]. *)
Theorem select_emits_active_item (m : Model any) (msg : KeyMsg) (c : Z) :
  is_select (KeyMsg_String msg) ->
  cursor m = c ->
  (0 <= c < len (items m))%Z ->
  exists item cmd,
    nth_error (elems (items m)) (Z.to_nat c) = Some item /\
    Update KeyMsg_String m msg = Ok (m, Some cmd) /\
    cmd tt = {| Index := c; Item := item |}.
Proof.
  intros Hkey Hc Hrange. subst c.
  destruct (index_ok (items m) (cursor m) Hrange) as (item & Hnth & Hidx).
  destruct (select_key_branch _ Hkey) as (Hl & Hr & Hs).
  exists item. eexists. split; [exact Hnth|].
  unfold Update.
  destruct (len (items m) =? 0)%Z eqn:En; [lia|].
  rewrite Hl, Hr, Hs, Hidx. simpl. split; reflexivity.
Qed.

Lemma not_key_false (key lit : string) :
  key <> lit -> String.eqb key lit = false.
Proof. intros H. apply String.eqb_neq. exact H. Qed.

(** [C4] For every non-empty item sequence: [Update] with a move-left key
    at cursor 0 returns the state unchanged and no command; [Update] with
    a move-right key at cursor [len(items)-1] returns the state unchanged
    and no command; and every key outside the three recognised classes
    returns the state unchanged and no command. *)
Theorem boundary_moves_and_other_keys_are_noops
    (m : Model any) (msg : KeyMsg) :
  (0 < len (items m))%Z ->
  (is_left (KeyMsg_String msg) -> cursor m = 0%Z ->
   Update KeyMsg_String m msg = Ok (m, None)) /\
  (is_right (KeyMsg_String msg) -> cursor m = (len (items m) - 1)%Z ->
   Update KeyMsg_String m msg = Ok (m, None)) /\
  (~ is_left (KeyMsg_String msg) -> ~ is_right (KeyMsg_String msg) ->
   ~ is_select (KeyMsg_String msg) ->
   Update KeyMsg_String m msg = Ok (m, None)).
Proof.
  intros Hn. unfold Update.
  destruct (len (items m) =? 0)%Z eqn:En; [lia|].
  repeat split.
  - intros Hk Hc.
    assert (Hb : (String.eqb (KeyMsg_String msg) "left"
                  || String.eqb (KeyMsg_String msg) "h") = true).
    { destruct Hk as [Hk | Hk]; rewrite Hk; reflexivity. }
    rewrite Hb, Hc. reflexivity.
  - intros Hk Hc.
    assert (Hl : (String.eqb (KeyMsg_String msg) "left"
                  || String.eqb (KeyMsg_String msg) "h") = false).
    { destruct Hk as [Hk | Hk]; rewrite Hk; reflexivity. }
    assert (Hb : (String.eqb (KeyMsg_String msg) "right"
                  || String.eqb (KeyMsg_String msg) "l") = true).
    { destruct Hk as [Hk | Hk]; rewrite Hk; reflexivity. }
    rewrite Hl, Hb.
    pose proof (wrap_nonneg_le (len (items m) - 1) ltac:(lia)) as Hw.
    unfold GoInt.sub.
    destruct (cursor m <? _)%Z eqn:Ec; [lia | reflexivity].
  - intros Hl Hr Hs. unfold is_left, is_right, is_select in *.
    rewrite !not_key_false by tauto. reflexivity.
Qed.

(** [C10] On a model whose item sequence is empty, [Update] returns the
    model unchanged and a nil command for every key message, the select
    keys included: [items[cursor]] is never evaluated and nothing
    panics, whatever the cursor is. *)
Theorem Update_empty_is_noop (m : Model any) (msg : KeyMsg) :
  len (items m) = 0%Z ->
  Update KeyMsg_String m msg = Ok (m, None).
Proof. intros H. unfold Update. rewrite H. reflexivity. Qed.

(** [C5] [SetItems] installs the new sequence.  If the new sequence is
    non-empty and the current cursor is at or past its length, the
    cursor becomes [len(newItems)-1]; a cursor below the new length (and
    any cursor when the new sequence is empty) is left unchanged.  No
    other field changes. *)
Theorem SetItems_installs_and_clamps (m : Model any) (newItems : slice any) :
  let m' := SetItems m newItems in
  elems (items m') = elems newItems /\
  ((0 < len newItems <= GoInt.max_int)%Z -> (len newItems <= cursor m)%Z ->
   cursor m' = (len newItems - 1)%Z) /\
  (len newItems = 0%Z \/ (cursor m < len newItems)%Z ->
   cursor m' = cursor m) /\
  (delegate m' = delegate m /\ title m' = title m /\
   activeColor m' = activeColor m /\ markedColor m' = markedColor m /\
   defaultColor m' = defaultColor m /\ extraFooter m' = extraFooter m /\
   width m' = width m /\ height m' = height m).
Proof.
  assert (Hnorm : elems (if is_nil newItems then mk_slice [] else newItems)
                  = elems newItems) by (destruct newItems; reflexivity).
  assert (Hlen : len (if is_nil newItems then mk_slice [] else newItems)
                 = len newItems) by (unfold len; rewrite Hnorm; reflexivity).
  intros m'. subst m'. unfold SetItems. rewrite Hlen.
  destruct (_ && _) eqn:E.
  - apply andb_prop in E. destruct E as [E1 E2]. simpl in *.
    repeat split; try reflexivity; try exact Hnorm.
    + intros Hr _. unfold GoInt.sub. apply wrap_small. int_range.
    + intros [H | H]; lia.
  - apply andb_false_iff in E. simpl in *.
    repeat split; try reflexivity; try exact Hnorm.
    intros Hr Hc. destruct E as [E | E]; lia.
Qed.

(** The invariant is established by the constructor and by both mutators,
    so it holds in every state the interface can reach with items. *)
Lemma New_cursor_in_range (cfg : Config any) :
  (0 < len (Items cfg))%Z -> cursor_in_range (New cfg).
Proof.
  intros H. unfold cursor_in_range, New.
  destruct (Items cfg) as [|l]; cbn [is_nil cursor items].
  - compute in H. discriminate.
  - split; [lia | exact H].
Qed.

Lemma SetCursor_cursor_in_range (m : Model any) (idx : Z) :
  (0 < len (items m) <= GoInt.max_int)%Z ->
  cursor_in_range (SetCursor m idx).
Proof.
  intros H. unfold cursor_in_range, SetCursor. simpl.
  assert (Hs : GoInt.sub (len (items m)) 1 = (len (items m) - 1)%Z).
  { unfold GoInt.sub. apply wrap_small. int_range. }
  rewrite Hs.
  destruct (len (items m) >? 0)%Z eqn:E0; [|lia].
  destruct (idx <? 0)%Z eqn:E1; simpl;
    match goal with
    | |- context [(?a >=? ?b)%Z] => destruct (a >=? b)%Z eqn:E2
    end; lia.
Qed.

Lemma SetItems_cursor_in_range (m : Model any) (newItems : slice any) :
  (0 <= cursor m)%Z ->
  (0 < len newItems <= GoInt.max_int)%Z ->
  cursor_in_range (SetItems m newItems).
Proof.
  intros Hc Hn. unfold cursor_in_range, SetItems.
  assert (Hnorm : (if is_nil newItems then mk_slice [] else newItems)
                  = newItems).
  { destruct newItems; [compute in Hn; intuition discriminate | reflexivity]. }
  rewrite Hnorm. cbn [cursor items set_items].
  destruct (len newItems >? 0)%Z eqn:E0; [|lia].
  destruct (cursor m >=? len newItems)%Z eqn:E1; cbn [andb cursor items set_cursor set_items].
  - unfold GoInt.sub. rewrite wrap_small by int_range. lia.
  - lia.
Qed.


(** [C6] For a model whose item sequence is empty, [View] returns the
    empty string whatever the width and height are, and its call log is
    empty: the delegate (which may even be nil) and the styling library
    are never called, so no card and no layout-dependent text is
    rendered. *)
Theorem View_empty {L : Lipgloss} {X : Xansi} (m : Model any) (w h : Z) :
  len (items m) = 0%Z ->
  View (SetSize m w h) = ([], Ok "").
Proof. intros H. unfold View. simpl. rewrite H. reflexivity. Qed.

End StateMachine.

(** ** Splitting and joining lines *)

Lemma Split_nonempty (s : string) (sep : ascii) : strings_Split s sep <> [].
Proof.
  destruct s as [|c s]; simpl; [discriminate|].
  destruct (Ascii.eqb c sep); [discriminate|].
  destruct (strings_Split s sep); discriminate.
Qed.

(** No piece of a split contains the separator. *)
Lemma Split_pieces_clean (s : string) (sep : ascii) :
  Forall (fun piece => contains_byte sep piece = false) (strings_Split s sep).
Proof.
  induction s as [|c s IH]; simpl.
  - repeat constructor.
  - destruct (Ascii.eqb c sep) eqn:E.
    + constructor; [reflexivity | exact IH].
    + destruct (strings_Split s sep) as [|piece pieces].
      * repeat constructor. simpl. rewrite E. reflexivity.
      * inversion IH; subst. constructor; [|assumption].
        simpl. rewrite E. assumption.
Qed.

Lemma Split_clean_then_sep (e rest : string) (sep : ascii) :
  contains_byte sep e = false ->
  strings_Split (e ++ String sep rest) sep = e :: strings_Split rest sep.
Proof.
  induction e as [|c e IH]; simpl; intros H.
  - rewrite Ascii.eqb_refl. reflexivity.
  - apply orb_false_iff in H. destruct H as [Hc He].
    rewrite Hc, (IH He). reflexivity.
Qed.

Lemma Split_clean (e : string) (sep : ascii) :
  contains_byte sep e = false -> strings_Split e sep = [e].
Proof.
  induction e as [|c e IH]; simpl; intros H; [reflexivity|].
  apply orb_false_iff in H. destruct H as [Hc He].
  rewrite Hc, (IH He). reflexivity.
Qed.

(** Splitting a join gives the joined pieces back. *)
Lemma Split_Join (pieces : list string) (sep : ascii) :
  pieces <> [] ->
  Forall (fun piece => contains_byte sep piece = false) pieces ->
  strings_Split (strings_Join pieces (String sep "")) sep = pieces.
Proof.
  induction pieces as [|e rest IH]; intros Hne Hclean; [congruence|].
  inversion Hclean as [|? ? He Hrest]; subst.
  destruct rest as [|e' rest'].
  - simpl. apply Split_clean. exact He.
  - change (strings_Join (e :: e' :: rest') (String sep ""))
      with (e ++ String sep (strings_Join (e' :: rest') (String sep ""))).
    rewrite Split_clean_then_sep by exact He.
    rewrite IH; [reflexivity | discriminate | exact Hrest].
Qed.

(** Joining a split gives the string back. *)
Lemma Join_Split (s : string) (sep : ascii) :
  strings_Join (strings_Split s sep) (String sep "") = s.
Proof.
  induction s as [|c s IH]; [reflexivity|].
  simpl. pose proof (Split_nonempty s sep) as Hne.
  destruct (Ascii.eqb c sep) eqn:E.
  - apply Ascii.eqb_eq in E. subst c.
    destruct (strings_Split s sep) as [|p ps]; [congruence|].
    change (strings_Join ("" :: p :: ps) (String sep ""))
      with ("" ++ String sep "" ++ strings_Join (p :: ps) (String sep "")).
    rewrite IH. reflexivity.
  - destruct (strings_Split s sep) as [|p ps]; [congruence|].
    destruct ps as [|p' ps'].
    + simpl in *. congruence.
    + change (strings_Join (String c p :: p' :: ps') (String sep ""))
        with (String c (p ++ String sep "" ++ strings_Join (p' :: ps') (String sep ""))).
      change (strings_Join (p :: p' :: ps') (String sep ""))
        with (p ++ String sep "" ++ strings_Join (p' :: ps') (String sep "")) in IH.
      rewrite IH. reflexivity.
Qed.

(** ** The clipper *)

Section ClipperProperties.
Context {X : Xansi} (HX : XansiContract X).

(** One line of [peekRight], under the contract of the library. *)
Lemma peekRight_line_spec (n : Z) (line : string) :
  (0 <= n)%Z ->
  (StringWidth line <= GoInt.max_int)%Z ->
  StringWidth (peekRight_line n line) = Z.min n (StringWidth line) /\
  ((StringWidth line <= n)%Z -> peekRight_line n line = line).
Proof.
  intros Hn Hfit. unfold peekRight_line.
  pose proof (width_nonneg X HX line) as Hw.
  destruct (StringWidth line >? n)%Z eqn:E.
  - split; [|lia].
    assert (Hk : GoInt.sub (StringWidth line) n = (StringWidth line - n)%Z).
    { unfold GoInt.sub. apply wrap_small. int_range. }
    rewrite Hk, (TruncateLeft_width X HX) by lia. lia.
  - split; [lia | reflexivity].
Qed.

Lemma peekRight_line_clean (n : Z) (line : string) :
  contains_byte "010" line = false ->
  contains_byte "010" (peekRight_line n line) = false.
Proof.
  intros H. unfold peekRight_line.
  destruct (StringWidth line >? n)%Z; [|exact H].
  apply (TruncateLeft_clean X HX). exact H.
Qed.

(** The lines of the clipped block are the clipped lines of the block. *)
Lemma peekRight_lines (block : string) (n : Z) :
  strings_Split (peekRight block n) "010" =
  map (peekRight_line n) (strings_Split block "010").
Proof.
  unfold peekRight. apply Split_Join.
  - pose proof (Split_nonempty block "010").
    destruct (strings_Split block "010"); [congruence | discriminate].
  - apply Forall_map.
    eapply Forall_impl; [|apply Split_pieces_clean].
    intros line Hl. apply peekRight_line_clean. exact Hl.
Qed.

(** Where the library's cut is exact (the contract [XansiContract]), for
    every multi-line block and every [n >= 0] (the width of each line
    being an [int]), line by line: the line of [peekRight block n] has
    visible width exactly [min(n, width of the original line)], and a line
    whose visible width is already [<= n] is returned unchanged, byte for
    byte. *)
Theorem peekRight_clips_each_line (block : string) (n : Z) :
  (0 <= n)%Z ->
  Forall (fun line => (StringWidth line <= GoInt.max_int)%Z)
         (strings_Split block "010") ->
  Forall2 (fun line line' =>
             StringWidth line' = Z.min n (StringWidth line) /\
             ((StringWidth line <= n)%Z -> line' = line))
          (strings_Split block "010")
          (strings_Split (peekRight block n) "010").
Proof.
  intros Hn Hfit. rewrite peekRight_lines.
  induction Hfit as [|line lines Hline Hlines IH]; simpl; constructor.
  - apply peekRight_line_spec; assumption.
  - exact IH.
Qed.

(** A block all of whose lines already fit is returned as it is. *)
Lemma peekRight_fits (block : string) (n : Z) :
  Forall (fun line => (StringWidth line <= n)%Z) (strings_Split block "010") ->
  peekRight block n = block.
Proof.
  intros H. unfold peekRight.
  rewrite <- (Join_Split block "010") at 2. f_equal.
  rewrite <- (map_id (strings_Split block "010")) at 2.
  apply map_ext_in. intros line Hin.
  rewrite Forall_forall in H. specialize (H line Hin).
  unfold peekRight_line.
  destruct (StringWidth line >? n)%Z eqn:E; [lia | reflexivity].
Qed.

End ClipperProperties.

(** The test instance meets the contract. *)
Lemma ansi_drop_width (s : string) (st : ansi_state) (k : nat) :
  (k <= ansi_width st s)%nat ->
  ansi_width st (ansi_drop st k s) = (ansi_width st s - k)%nat.
Proof.
  revert st k. induction s as [|c s IH]; intros st k Hk; [reflexivity|].
  simpl in *. destruct (ansi_step st c) as [st' printed] eqn:Es.
  destruct printed.
  - destruct k as [|k].
    + simpl. rewrite Es. reflexivity.
    + assert (st' = st) as ->.
      { destruct st; simpl in Es;
          repeat match type of Es with
                 | context [if ?b then _ else _] => destruct b
                 end; inversion Es; reflexivity. }
      rewrite IH by lia. lia.
  - simpl. rewrite Es. apply IH. exact Hk.
Qed.

Lemma ansi_drop_clean (c : ascii) (s : string) (st : ansi_state) (k : nat) :
  contains_byte c s = false -> contains_byte c (ansi_drop st k s) = false.
Proof.
  revert st k. induction s as [|c' s IH]; intros st k H; [reflexivity|].
  pose proof H as H'. simpl in H. apply orb_false_iff in H.
  destruct H as [Hc Hs].
  simpl. destruct (ansi_step st c') as [st' printed].
  destruct printed.
  - destruct k; [exact H' | apply IH; exact Hs].
  - simpl. rewrite Hc. apply IH. exact Hs.
Qed.

Lemma ansi_xansi_contract : XansiContract ansi_xansi.
Proof.
  constructor; simpl.
  - intros line. unfold ansi_StringWidth. lia.
  - intros line k Hk. unfold ansi_TruncateLeft, ansi_StringWidth in *.
    destruct (k <=? 0)%Z eqn:E0; [lia|].
    simpl. rewrite ansi_drop_width by lia. lia.
  - intros line k H. unfold ansi_TruncateLeft.
    destruct (k <=? 0)%Z; [exact H|].
    simpl. apply ansi_drop_clean. exact H.
Qed.

(** ** The hint [View] hands to the footer *)

Section ViewFooter.
Context {any : Type} {L : Lipgloss} {X : Xansi}.

Lemma bind_Ok_inv {A B} (c : M A) (f : A -> M B) (log : list (Call any))
    (b : B) :
  bind c f = (log, Ok b) ->
  exists l1 a l2, c = (l1, Ok a) /\ f a = (l2, Ok b) /\ log = (l1 ++ l2)%list.
Proof.
  unfold bind. destruct c as [l1 [a | why]]; [|discriminate].
  destruct (f a) as [l2 r] eqn:Ef. intros H. inversion H; subst.
  exists l1, a, l2. split; [reflexivity|]. split; [exact Ef | reflexivity].
Qed.

Lemma renderFooter_logs_hint (m : Model any) (navHint : string) :
  In (CallStyleRender (NewStyle .> Foreground "240") navHint)
     (fst (renderFooter m navHint)).
Proof.
  unfold renderFooter.
  destruct (negb (String.eqb (extraFooter m) "")); simpl; tauto.
Qed.

(** Whenever [View] renders a non-empty carousel, one of its calls to the
    styling library renders the hint chosen by the [switch cur]. *)
Lemma View_renders_navHint (m : Model any) (log : list (Call any))
    (out : string) :
  len (items m) <> 0%Z ->
  View m = (log, Ok out) ->
  In (CallStyleRender (NewStyle .> Foreground "240")
        (View_navHint (cursor m) (len (items m)))) log.
Proof.
  intros Hn HV. unfold View in HV.
  apply Z.eqb_neq in Hn. rewrite Hn in HV.
  repeat (apply bind_Ok_inv in HV;
          destruct HV as (? & ? & ? & ? & HV & ->)).
  match goal with
  | Hf : renderFooter m ?hint = (?lf, _) |- _ =>
      pose proof (renderFooter_logs_hint m hint) as Hin;
      rewrite Hf in Hin; simpl fst in Hin
  end.
  rewrite !in_app_iff. tauto.
Qed.

End ViewFooter.

(** ** The properties at concrete inputs *)

(** The scenarios of the layout: a width of 200 is capped at 44, a width of
    10 is raised to 24. *)
Example centerW_cap : Layout.centerW 200 = 44%Z.
Proof. reflexivity. Qed.

Example centerW_floor : Layout.centerW 10 = 24%Z.
Proof. reflexivity. Qed.

Example layout_of_80_columns :
  (Layout.centerW 80, Layout.peekW 80, Layout.cardContentH 80)
  = (44, 13, 13)%Z.
Proof. reflexivity. Qed.

Example Split_lines :
  strings_Split ("ab" ++ NL ++ NL ++ "c" ++ NL) "010" = ["ab"; ""; "c"; ""].
Proof. reflexivity. Qed.

Example Split_empty : strings_Split "" "010" = [""].
Proof. reflexivity. Qed.

Lemma demo_model_len : len (items demo_model) = 3%Z.
Proof. reflexivity. Qed.

Lemma cursor_invariant_witness :
  exists m',
    Update_all demo_key demo_model ["right"; "l"; "right"; "left"; "h"; "h"]
      = Ok m' /\
    items m' = items demo_model /\ cursor_in_range m'.
Proof.
  apply cursor_invariant.
  - rewrite demo_model_len. int_consts. lia.
  - unfold cursor_in_range. rewrite demo_model_len. simpl. lia.
Defined.

Lemma select_emits_active_item_witness :
  exists item cmd,
    nth_error (elems (items demo_model)) (Z.to_nat 0) = Some item /\
    Update demo_key demo_model "enter" = Ok (demo_model, Some cmd) /\
    cmd tt = {| Index := 0; Item := item |}.
Proof.
  apply (select_emits_active_item demo_key demo_model "enter" 0).
  - unfold is_select, demo_key. tauto.
  - reflexivity.
  - rewrite demo_model_len. lia.
Defined.

Lemma boundary_moves_and_other_keys_are_noops_witness :
  Update demo_key demo_model "left" = Ok (demo_model, None) /\
  Update demo_key (SetCursor demo_model 2) "right"
    = Ok (SetCursor demo_model 2, None) /\
  Update demo_key demo_model "esc" = Ok (demo_model, None).
Proof.
  assert (Hn : (0 < len (items demo_model))%Z)
    by (rewrite demo_model_len; lia).
  destruct (boundary_moves_and_other_keys_are_noops
              demo_key demo_model "left" Hn) as (Hleft & _ & _).
  destruct (boundary_moves_and_other_keys_are_noops
              demo_key (SetCursor demo_model 2) "right" Hn) as (_ & Hright & _).
  destruct (boundary_moves_and_other_keys_are_noops
              demo_key demo_model "esc" Hn) as (_ & _ & Hother).
  split; [|split].
  - apply Hleft; [left|]; reflexivity.
  - apply Hright; [left|]; reflexivity.
  - apply Hother; unfold is_left, is_right, is_select, demo_key;
      intuition discriminate.
Defined.

Lemma Update_empty_is_noop_witness :
  Update demo_key (SetCursor empty_model 5) "enter"
    = Ok (SetCursor empty_model 5, None).
Proof. apply Update_empty_is_noop. reflexivity. Defined.

Lemma SetItems_installs_and_clamps_witness :
  cursor (SetItems (SetCursor demo_model 2) (mk_slice [7; 8]%nat)) = 1%Z /\
  cursor (SetItems demo_model (mk_slice [7; 8]%nat)) = 0%Z.
Proof.
  destruct (SetItems_installs_and_clamps
              (SetCursor demo_model 2) (mk_slice [7; 8]%nat))
    as (_ & Hclamp & _).
  destruct (SetItems_installs_and_clamps demo_model (mk_slice [7; 8]%nat))
    as (_ & _ & Hkeep & _).
  split.
  - rewrite Hclamp; [reflexivity | | ].
    + change (len (mk_slice [7; 8]%nat)) with 2%Z. int_consts. lia.
    + change (len (mk_slice [7; 8]%nat)) with 2%Z. simpl. lia.
  - rewrite Hkeep; [reflexivity|].
    right. change (len (mk_slice [7; 8]%nat)) with 2%Z. simpl. lia.
Defined.


Lemma View_empty_witness :
  @View nat plain_lipgloss ansi_xansi (SetSize empty_model 80 24)
    = ([], Ok "").
Proof. apply View_empty. reflexivity. Defined.

Lemma peekRight_clips_each_line_witness :
  Forall2 (fun line line' =>
             ansi_StringWidth line' = Z.min 3 (ansi_StringWidth line) /\
             ((ansi_StringWidth line <= 3)%Z -> line' = line))
          (strings_Split demo_block "010")
          (strings_Split (@peekRight ansi_xansi demo_block 3) "010").
Proof.
  apply (peekRight_clips_each_line ansi_xansi_contract demo_block 3).
  - lia.
  - repeat constructor; vm_compute; discriminate.
Defined.

Example peekRight_demo :
  @peekRight ansi_xansi demo_block 3 = red ++ reset ++ "def" ++ NL ++ "xy".
Proof. reflexivity. Qed.

Example View_demo_footer :
  exists log out,
    @View nat plain_lipgloss ansi_xansi demo_model = (log, Ok out) /\
    In (CallStyleRender (NewStyle .> Foreground "240") "→ Navigate") log.
Proof.
  destruct (@View nat plain_lipgloss ansi_xansi demo_model)
    as [log [out | why]] eqn:E; [|vm_compute in E; discriminate].
  exists log, out. split; [reflexivity|].
  apply (@View_renders_navHint nat plain_lipgloss ansi_xansi
           demo_model log out); [discriminate | exact E].
Qed.

(** * Further properties *)

(** ** The layout as a function of the width *)

Open Scope Z_scope.

Lemma peekW_closed (width : Z) :
  GoInt.min_int + 34 <= width <= GoInt.max_int ->
  Layout.peekW width = Z.max 8 (Z.min 23 ((width - 54) / 2)).
Proof.
  intros H.
  rewrite peekW_clamps, maxPeek_eq, (peekW_raw_eq _ H).
  rewrite (centerW_eq width) by int_range.
  unfold minPeekW, carouselGap.
  Z.to_euclidean_division_equations. lia.
Qed.

Lemma cardContentH_closed (width : Z) :
  Layout.cardContentH width = Z.max 8 ((Layout.centerW width + 2) * 3 / 10).
Proof.
  pose proof (centerW_bounds width) as Hc.
  unfold Layout.cardContentH, GoInt.div, GoInt.mul, GoInt.add.
  rewrite (wrap_small (Layout.centerW width + 2)) by int_range.
  rewrite (wrap_small ((Layout.centerW width + 2) * 3)) by int_range.
  rewrite Z.quot_div_nonneg by lia.
  rewrite wrap_small by int_range.
  destruct (_ <? 8) eqn:E; lia.
Qed.

(** [X1] Where the [int] arithmetic does not wrap, the three results of the
    layout are these functions of the width: the center card is
    [width - 26] clamped to [24..44], the peek is [(width - 54) / 2] clamped
    to [8..23], and the card has [(centerW + 2) * 3 / 10] rows but at least
    8 (hence between 8 and 13). *)
Theorem layout_closed_form (width : Z) :
  GoInt.min_int + 34 <= width <= GoInt.max_int ->
  Layout.centerW width = Z.max 24 (Z.min 44 (width - 26)) /\
  Layout.peekW width = Z.max 8 (Z.min 23 ((width - 54) / 2)) /\
  Layout.cardContentH width = Z.max 8 ((Layout.centerW width + 2) * 3 / 10) /\
  8 <= Layout.cardContentH width <= 13.
Proof.
  intros H. split; [apply centerW_eq; int_range|].
  split; [apply peekW_closed; exact H|].
  split; [apply cardContentH_closed|].
  rewrite cardContentH_closed. pose proof (centerW_bounds width) as Hc.
  Z.to_euclidean_division_equations. lia.
Qed.

Lemma layout_closed_form_witness :
  Layout.centerW 60 = 34 /\ Layout.peekW 60 = 8 /\
  Layout.cardContentH 60 = 10 /\ Layout.peekW 90 = 18.
Proof.
  destruct (layout_closed_form 60 ltac:(int_range)) as (Hc & Hp & Hh & _).
  destruct (layout_closed_form 90 ltac:(int_range)) as (_ & Hp' & _).
  rewrite Hh, Hc, Hp, Hp'. repeat split; reflexivity.
Defined.

(** [X2] A wider terminal never gets a smaller layout: where nothing wraps,
    the center width, the peek width and the card height are monotone in
    the width. *)
Theorem layout_monotone (w1 w2 : Z) :
  GoInt.min_int + 34 <= w1 -> w1 <= w2 -> w2 <= GoInt.max_int ->
  Layout.centerW w1 <= Layout.centerW w2 /\
  Layout.peekW w1 <= Layout.peekW w2 /\
  Layout.cardContentH w1 <= Layout.cardContentH w2.
Proof.
  intros H1 H12 H2.
  rewrite !cardContentH_closed.
  rewrite (peekW_closed w1), (peekW_closed w2) by int_range.
  rewrite (centerW_eq w1), (centerW_eq w2) by int_range.
  repeat split.
  - lia.
  - Z.to_euclidean_division_equations. lia.
  - Z.to_euclidean_division_equations. lia.
Qed.

Lemma layout_monotone_witness :
  Layout.centerW 40 <= Layout.centerW 95 /\
  Layout.peekW 40 <= Layout.peekW 95 /\
  Layout.cardContentH 40 <= Layout.cardContentH 95.
Proof. apply layout_monotone; int_range. Defined.

(** [X3] For every width from [min_int + 34] up, where the [int]
    arithmetic does not wrap: the nominal width of the row [View]
    assembles, two peeks of [peekW] columns, two gaps and the center card
    of [totalCardW = centerW + 2] columns (its border included), is at most
    [width - 4] exactly when [width >= 50], and at most
    [usable = width - 6] exactly when [width >= 102].  It is 46 columns for
    every width up to 50 and 96 columns for every width from 100 on. *)
Theorem layout_row_width (width : Z) :
  GoInt.min_int + 34 <= width <= GoInt.max_int ->
  let totalCardW := Layout.centerW width + 2 in
  let row := 2 * Layout.peekW width + 2 * carouselGap + totalCardW in
  (row <= width - 4 <-> 50 <= width) /\
  (row <= Layout.usable width <-> 102 <= width) /\
  (width <= 50 -> row = 46) /\
  (100 <= width -> row = 96).
Proof.
  intros H totalCardW row. subst row totalCardW.
  rewrite (peekW_closed width H), (centerW_eq width), (usable_eq width)
    by int_range.
  unfold carouselGap.
  repeat split; intros H'; Z.to_euclidean_division_equations; lia.
Qed.

Lemma layout_row_width_witness :
  2 * Layout.peekW 80 + 2 * carouselGap + (Layout.centerW 80 + 2) <= 80 - 4 /\
  ~ (2 * Layout.peekW 80 + 2 * carouselGap + (Layout.centerW 80 + 2)
       <= Layout.usable 80) /\
  2 * Layout.peekW 30 + 2 * carouselGap + (Layout.centerW 30 + 2) = 46.
Proof.
  destruct (layout_row_width 80 ltac:(int_range)) as ((_ & Hfit) & (Hin & _) & _).
  destruct (layout_row_width 30 ltac:(int_range)) as (_ & _ & Hmin & _).
  cbv zeta in *.
  split; [apply Hfit; lia|]. split; [|apply Hmin; lia].
  intros Hle. apply Hin in Hle. lia.
Defined.

(** ** More of the cursor state machine *)

Open Scope string_scope.

Lemma set_cursor_same {any : Type} (m : Model any) :
  set_cursor m (cursor m) = m.
Proof. destruct m; reflexivity. Qed.

Lemma set_cursor_twice {any : Type} (m : Model any) (c c' : Z) :
  set_cursor (set_cursor m c) c' = set_cursor m c'.
Proof. reflexivity. Qed.

Lemma is_left_bool (key : string) :
  (String.eqb key "left" || String.eqb key "h") = true <-> is_left key.
Proof.
  unfold is_left. rewrite orb_true_iff, !String.eqb_eq. tauto.
Qed.

Lemma is_right_bool (key : string) :
  (String.eqb key "right" || String.eqb key "l") = true <-> is_right key.
Proof.
  unfold is_right. rewrite orb_true_iff, !String.eqb_eq. tauto.
Qed.

Lemma is_select_bool (key : string) :
  (String.eqb key "down" || String.eqb key "j"
   || String.eqb key "enter" || String.eqb key " ") = true <-> is_select key.
Proof.
  unfold is_select. rewrite !orb_true_iff, !String.eqb_eq. tauto.
Qed.

Lemma right_is_not_left (key : string) :
  is_right key -> (String.eqb key "left" || String.eqb key "h") = false.
Proof. intros [H | H]; subst key; reflexivity. Qed.

Section MoreStateMachine.
Context {any KeyMsg : Type} (KeyMsg_String : KeyMsg -> string).

(** The branch of [Update] for a move-left key. *)
Lemma Update_left (m : Model any) (msg : KeyMsg) :
  len (items m) <> 0%Z -> is_left (KeyMsg_String msg) ->
  Update KeyMsg_String m msg =
  Ok (if (cursor m >? 0)%Z then set_cursor m (GoInt.sub (cursor m) 1) else m,
      None).
Proof.
  intros Hn Hk. unfold Update. apply Z.eqb_neq in Hn. rewrite Hn.
  apply is_left_bool in Hk. rewrite Hk. reflexivity.
Qed.

(** The branch of [Update] for a move-right key. *)
Lemma Update_right (m : Model any) (msg : KeyMsg) :
  len (items m) <> 0%Z -> is_right (KeyMsg_String msg) ->
  Update KeyMsg_String m msg =
  Ok (if (cursor m <? GoInt.sub (len (items m)) 1)%Z
      then set_cursor m (GoInt.add (cursor m) 1) else m,
      None).
Proof.
  intros Hn Hk. unfold Update. apply Z.eqb_neq in Hn. rewrite Hn.
  rewrite (right_is_not_left _ Hk).
  apply is_right_bool in Hk. rewrite Hk. reflexivity.
Qed.

(** One move-left and one move-right on a state with a valid cursor. *)
Lemma Update_left_valid (m : Model any) (msg : KeyMsg) :
  (len (items m) <= GoInt.max_int)%Z -> cursor_in_range m ->
  is_left (KeyMsg_String msg) ->
  Update KeyMsg_String m msg =
  Ok (set_cursor m (Z.max 0 (cursor m - 1)), None).
Proof.
  unfold cursor_in_range. intros Hlen Hinv Hk.
  rewrite Update_left by (lia || assumption).
  destruct (cursor m >? 0)%Z eqn:E.
  - unfold GoInt.sub. rewrite wrap_small by int_range.
    rewrite Z.max_r by lia. reflexivity.
  - replace (Z.max 0 (cursor m - 1)) with (cursor m) by lia.
    rewrite set_cursor_same. reflexivity.
Qed.

Lemma Update_right_valid (m : Model any) (msg : KeyMsg) :
  (len (items m) <= GoInt.max_int)%Z -> cursor_in_range m ->
  is_right (KeyMsg_String msg) ->
  Update KeyMsg_String m msg =
  Ok (set_cursor m (Z.min (len (items m) - 1) (cursor m + 1)), None).
Proof.
  unfold cursor_in_range. intros Hlen Hinv Hk.
  rewrite Update_right by (lia || assumption).
  assert (Hs : GoInt.sub (len (items m)) 1 = (len (items m) - 1)%Z).
  { unfold GoInt.sub. apply wrap_small. int_range. }
  rewrite Hs.
  destruct (cursor m <? len (items m) - 1)%Z eqn:E.
  - unfold GoInt.add. rewrite wrap_small by int_range.
    rewrite Z.min_r by lia. reflexivity.
  - replace (Z.min (len (items m) - 1) (cursor m + 1)) with (cursor m) by lia.
    rewrite set_cursor_same. reflexivity.
Qed.

(** [X4] Away from the boundaries a move changes the cursor by exactly one
    and nothing else: move-left at a cursor [> 0] gives [cursor - 1],
    move-right at a cursor [< len(items) - 1] gives [cursor + 1], both
    without a command. *)
Theorem Update_moves_by_one (m : Model any) (msg : KeyMsg) :
  (len (items m) <= GoInt.max_int)%Z -> cursor_in_range m ->
  (is_left (KeyMsg_String msg) -> (0 < cursor m)%Z ->
   Update KeyMsg_String m msg = Ok (set_cursor m (cursor m - 1), None)) /\
  (is_right (KeyMsg_String msg) -> (cursor m < len (items m) - 1)%Z ->
   Update KeyMsg_String m msg = Ok (set_cursor m (cursor m + 1), None)).
Proof.
  intros Hlen Hinv. split; intros Hk Hc.
  - rewrite Update_left_valid by assumption. rewrite Z.max_r by lia.
    reflexivity.
  - rewrite Update_right_valid by assumption. rewrite Z.min_r by lia.
    reflexivity.
Qed.

(** [X5] Moves undo each other away from the boundaries: move-right then
    move-left from a cursor that is not the last index returns the very same
    state, and so does move-left then move-right from a cursor that is not
    0. *)
Theorem Update_moves_round_trip (m : Model any) (left right : KeyMsg) :
  (len (items m) <= GoInt.max_int)%Z -> cursor_in_range m ->
  is_left (KeyMsg_String left) -> is_right (KeyMsg_String right) ->
  ((cursor m < len (items m) - 1)%Z ->
   Update_all KeyMsg_String m [right; left] = Ok m) /\
  ((0 < cursor m)%Z ->
   Update_all KeyMsg_String m [left; right] = Ok m).
Proof.
  unfold cursor_in_range. intros Hlen Hinv Hl Hr. split; intros Hc.
  - simpl. rewrite Update_right_valid by assumption. simpl.
    rewrite Update_left_valid
      by (try assumption; unfold cursor_in_range; simpl; lia).
    simpl. rewrite set_cursor_twice.
    replace (Z.max 0 (Z.min (len (items m) - 1) (cursor m + 1) - 1))
      with (cursor m) by lia.
    rewrite set_cursor_same. reflexivity.
  - simpl. rewrite Update_left_valid by assumption. simpl.
    rewrite Update_right_valid
      by (try assumption; unfold cursor_in_range; simpl; lia).
    simpl. rewrite set_cursor_twice.
    replace (Z.min (len (items m) - 1) (Z.max 0 (cursor m - 1) + 1))
      with (cursor m) by lia.
    rewrite set_cursor_same. reflexivity.
Qed.

(** [X6] Pressing a move key [k] times saturates at the boundary: [k]
    move-right keys take the cursor from [c] to [min(len(items)-1, c+k)],
    [k] move-left keys take it to [max(0, c-k)]; nothing else changes. *)
Theorem Update_repeated_moves (k : nat) (m : Model any) (msg : KeyMsg) :
  (len (items m) <= GoInt.max_int)%Z -> cursor_in_range m ->
  (is_right (KeyMsg_String msg) ->
   Update_all KeyMsg_String m (repeat msg k) =
   Ok (set_cursor m (Z.min (len (items m) - 1) (cursor m + Z.of_nat k)))) /\
  (is_left (KeyMsg_String msg) ->
   Update_all KeyMsg_String m (repeat msg k) =
   Ok (set_cursor m (Z.max 0 (cursor m - Z.of_nat k)))).
Proof.
  revert m. induction k as [|k IH]; intros m Hlen Hinv.
  - unfold cursor_in_range in Hinv. simpl. split; intros _; f_equal.
    + replace (Z.min _ _) with (cursor m) by lia.
      symmetry. apply set_cursor_same.
    + replace (Z.max _ _) with (cursor m) by lia.
      symmetry. apply set_cursor_same.
  - pose proof Hinv as Hinv'. unfold cursor_in_range in Hinv'.
    split; intros Hk; cbn [repeat Update_all].
    + rewrite Update_right_valid by assumption. cbn [res_bind fst].
      destruct (IH (set_cursor m (Z.min (len (items m) - 1) (cursor m + 1))))
        as [IHr _]; [exact Hlen | unfold cursor_in_range; simpl; lia |].
      rewrite (IHr Hk). cbn [items cursor set_cursor]. f_equal.
      unfold set_cursor. cbn. f_equal. lia.
    + rewrite Update_left_valid by assumption. cbn [res_bind fst].
      destruct (IH (set_cursor m (Z.max 0 (cursor m - 1))))
        as [_ IHl]; [exact Hlen | unfold cursor_in_range; simpl; lia |].
      rewrite (IHl Hk). cbn [items cursor set_cursor]. f_equal.
      unfold set_cursor. cbn. f_equal. lia.
Qed.

(** Whatever [Update] returns is the given model up to its cursor. *)
Lemma Update_frame (m m' : Model any) (msg : KeyMsg)
    (cmd : option (Cmd any)) :
  Update KeyMsg_String m msg = Ok (m', cmd) ->
  only_cursor_differs m m'.
Proof.
  unfold only_cursor_differs, Update.
  destruct (len (items m) =? 0)%Z.
  { intros H. inversion H; subst. symmetry. apply set_cursor_same. }
  set (key := KeyMsg_String msg).
  destruct (String.eqb key "left" || String.eqb key "h").
  { destruct (cursor m >? 0)%Z; intros H; inversion H; subst;
      [reflexivity | symmetry; apply set_cursor_same]. }
  destruct (String.eqb key "right" || String.eqb key "l").
  { destruct (cursor m <? _)%Z; intros H; inversion H; subst;
      [reflexivity | symmetry; apply set_cursor_same]. }
  destruct (String.eqb key "down" || String.eqb key "j"
            || String.eqb key "enter" || String.eqb key " ").
  { destruct (index (items m) (cursor m)); simpl; intros H; inversion H; subst.
    symmetry. apply set_cursor_same. }
  intros H. inversion H; subst. symmetry. apply set_cursor_same.
Qed.

(** [X7] [Update] never touches anything but the cursor: whenever it
    returns, whatever the state and the key, the returned model is the
    given one up to its cursor. *)
Theorem Update_changes_only_cursor (m m' : Model any) (msg : KeyMsg)
    (cmd : option (Cmd any)) :
  Update KeyMsg_String m msg = Ok (m', cmd) ->
  only_cursor_differs m m'.
Proof. apply Update_frame. Qed.

(** [X8] On a non-empty carousel with a valid cursor [Update] returns a
    command exactly for the select keys (enter, down, j, space); every other
    key, the moves included, returns nil. *)
Theorem Update_command_iff_select (m : Model any) (msg : KeyMsg) :
  cursor_in_range m ->
  exists m' cmd,
    Update KeyMsg_String m msg = Ok (m', cmd) /\
    (cmd <> None <-> is_select (KeyMsg_String msg)).
Proof.
  unfold cursor_in_range. intros Hinv. unfold Update.
  destruct (len (items m) =? 0)%Z eqn:En; [lia|].
  set (key := KeyMsg_String msg).
  destruct (String.eqb key "left" || String.eqb key "h") eqn:El.
  { eexists _, None. split; [reflexivity|]. split; [congruence|].
    intros Hs. apply is_left_bool in El.
    destruct El as [E | E], Hs as [H | [H | [H | H]]]; congruence. }
  destruct (String.eqb key "right" || String.eqb key "l") eqn:Er.
  { eexists _, None. split; [reflexivity|]. split; [congruence|].
    intros Hs. apply is_right_bool in Er.
    destruct Er as [E | E], Hs as [H | [H | [H | H]]]; congruence. }
  destruct (String.eqb key "down" || String.eqb key "j"
            || String.eqb key "enter" || String.eqb key " ") eqn:Es.
  { destruct (index_ok (items m) (cursor m) Hinv) as (a & _ & Hidx).
    rewrite Hidx. simpl. eexists _, (Some _). split; [reflexivity|].
    split; [intros _; apply is_select_bool; exact Es | discriminate]. }
  eexists _, None. split; [reflexivity|]. split; [congruence|].
  intros Hs. apply is_select_bool in Hs. fold key in Hs. congruence.
Qed.

(** [X9] [SetCursor] clamps: on a non-empty carousel the cursor becomes
    [idx] clamped to [0 .. len(items)-1]; on an empty one it becomes
    [max(0, idx)] (the cursor is then set, not left alone).  Nothing but
    the cursor changes. *)
Theorem SetCursor_clamps (m : Model any) (idx : Z) :
  (len (items m) <= GoInt.max_int)%Z ->
  ((0 < len (items m))%Z ->
   cursor (SetCursor m idx) = Z.max 0 (Z.min idx (len (items m) - 1))) /\
  (len (items m) = 0%Z -> cursor (SetCursor m idx) = Z.max 0 idx) /\
  only_cursor_differs m (SetCursor m idx).
Proof.
  intros Hlen. unfold SetCursor. cbn [cursor set_cursor].
  pose proof (len_nonneg (items m)) as Hn.
  assert (Hs : (0 < len (items m))%Z ->
               GoInt.sub (len (items m)) 1 = (len (items m) - 1)%Z).
  { intros H. unfold GoInt.sub. apply wrap_small. int_range. }
  repeat split.
  - intros Hpos. rewrite (Hs Hpos).
    destruct (len (items m) >? 0)%Z eqn:E0; [|lia].
    destruct (idx <? 0)%Z eqn:E1; cbn [andb];
      match goal with
      | |- context [(?a >=? ?b)%Z] => destruct (a >=? b)%Z eqn:E2
      end; lia.
  - intros H0. rewrite H0. cbn [Z.gtb Z.compare andb].
    destruct (idx <? 0)%Z eqn:E1; lia.
Qed.

End MoreStateMachine.

(** ** Every state the interface reaches *)

Section Reachable.
Context {any KeyMsg : Type} (KeyMsg_String : KeyMsg -> string).

Lemma default_color_nonempty (c default : string) :
  default <> "" -> (if String.eqb c "" then default else c) <> "".
Proof.
  intros Hd. destruct (String.eqb c "") eqn:E; [exact Hd|].
  apply String.eqb_neq. exact E.
Qed.

Lemma New_shape (cfg : Config any) :
  (len (Items cfg) <= GoInt.max_int)%Z -> reachable_shape (New cfg).
Proof.
  intros Hlen. unfold reachable_shape, New.
  cbn [items activeColor markedColor defaultColor cursor].
  repeat split; try (apply default_color_nonempty; discriminate).
  - destruct (Items cfg); reflexivity.
  - destruct (Items cfg); [compute; discriminate | exact Hlen].
  - lia.
  - destruct (Items cfg) as [|l]; cbn [is_nil]; intros H;
      [compute in H; discriminate | exact H].
Qed.

Lemma SetItems_shape (m : Model any) (its : slice any) :
  reachable_shape m -> (len its <= GoInt.max_int)%Z ->
  reachable_shape (SetItems m its).
Proof.
  unfold reachable_shape.
  intros (Hnil & Ha & Hm & Hd & Hlen & Hc & Hlt) Hfit.
  unfold SetItems.
  set (its' := if is_nil its then mk_slice [] else its).
  assert (Hnil' : is_nil its' = false) by (destruct its; reflexivity).
  assert (Hlen' : len its' = len its) by (destruct its; reflexivity).
  pose proof (len_nonneg its) as Hnn.
  destruct (_ && _) eqn:E; cbn [items activeColor markedColor defaultColor
                                 cursor set_cursor set_items] in *.
  - apply andb_prop in E. destruct E as [E0 E1].
    rewrite Hlen' in *.
    assert (Hs : GoInt.sub (len its) 1 = (len its - 1)%Z).
    { unfold GoInt.sub. apply wrap_small. int_range. }
    rewrite Hs. repeat split; try assumption; lia.
  - apply andb_false_iff in E. rewrite Hlen' in *.
    repeat split; try assumption. intros Hpos. destruct E as [E | E]; lia.
Qed.

Lemma SetCursor_shape (m : Model any) (idx : Z) :
  reachable_shape m -> reachable_shape (SetCursor m idx).
Proof.
  unfold reachable_shape.
  intros (Hnil & Ha & Hm & Hd & Hlen & Hc & Hlt).
  unfold SetCursor.
  cbn [items activeColor markedColor defaultColor cursor set_cursor].
  pose proof (len_nonneg (items m)) as Hnn.
  repeat split; try assumption.
  - destruct (len (items m) >? 0)%Z eqn:E0; cbn [andb].
    + assert (Hs : GoInt.sub (len (items m)) 1 = (len (items m) - 1)%Z).
      { unfold GoInt.sub. apply wrap_small. int_range. }
      rewrite Hs.
      destruct (idx <? 0)%Z eqn:E1;
        match goal with
        | |- context [(?a >=? ?b)%Z] => destruct (a >=? b)%Z eqn:E2
        end; lia.
    + destruct (idx <? 0)%Z eqn:E1; lia.
  - intros Hpos.
    destruct (len (items m) >? 0)%Z eqn:E0; [|lia]. cbn [andb].
    assert (Hs : GoInt.sub (len (items m)) 1 = (len (items m) - 1)%Z).
    { unfold GoInt.sub. apply wrap_small. int_range. }
    rewrite Hs.
    destruct (idx <? 0)%Z eqn:E1;
      match goal with
      | |- context [(?a >=? ?b)%Z] => destruct (a >=? b)%Z eqn:E2
      end; lia.
Qed.

Lemma Update_shape (m : Model any) (msg : KeyMsg) :
  reachable_shape m ->
  exists m' cmd,
    Update KeyMsg_String m msg = Ok (m', cmd) /\ reachable_shape m'.
Proof.
  intros Hshape. pose proof Hshape as (Hnil & Ha & Hm & Hd & Hlen & Hc & Hlt).
  destruct (Z.eq_dec (len (items m)) 0) as [H0 | Hpos].
  - exists m, None. split; [|exact Hshape].
    unfold Update. rewrite H0. reflexivity.
  - pose proof (len_nonneg (items m)) as Hnn.
    assert (Hinv : cursor_in_range m) by (unfold cursor_in_range; lia).
    destruct (Update_preserves KeyMsg_String m msg Hlen Hinv)
      as (m' & cmd & Hu & Hit & Hinv').
    exists m', cmd. split; [exact Hu|].
    pose proof (Update_frame KeyMsg_String m m' msg cmd Hu) as Hf.
    unfold only_cursor_differs in Hf. unfold cursor_in_range in Hinv'.
    unfold reachable_shape. rewrite Hit in *.
    rewrite Hf. cbn [activeColor markedColor defaultColor cursor set_cursor].
    repeat split; try assumption; lia.
Qed.

Lemma run_op_shape (m : Model any) (op : Op any KeyMsg) :
  reachable_shape m -> op_fits op ->
  exists m', run_op KeyMsg_String m op = Ok m' /\ reachable_shape m'.
Proof.
  intros Hshape Hfit. destruct op as [msg | idx | its | w h]; simpl.
  - destruct (Update_shape m msg Hshape) as (m' & cmd & Hu & Hs).
    exists m'. rewrite Hu. split; [reflexivity | exact Hs].
  - eexists. split; [reflexivity|]. apply SetCursor_shape. exact Hshape.
  - eexists. split; [reflexivity|]. apply SetItems_shape; assumption.
  - eexists. split; [reflexivity|]. exact Hshape.
Qed.

Lemma run_ops_shape (ops : list (Op any KeyMsg)) (m : Model any) :
  reachable_shape m -> Forall op_fits ops ->
  exists m', run_ops KeyMsg_String m ops = Ok m' /\ reachable_shape m'.
Proof.
  revert m. induction ops as [|op rest IH]; intros m Hshape Hfits.
  - exists m. split; [reflexivity | exact Hshape].
  - inversion Hfits as [|? ? Hfit Hrest]; subst.
    destruct (run_op_shape m op Hshape Hfit) as (m1 & Hop & Hs1).
    destruct (IH m1 Hs1 Hrest) as (m' & Hrun & Hs').
    exists m'. simpl. rewrite Hop. simpl. split; [exact Hrun | exact Hs'].
Qed.

(** [X10] Whatever sequence of [Update], [SetCursor], [SetItems] and
    [SetSize] calls follows [New] (all slices having an [int] length), no
    call panics, and in the state reached the items are not nil, the three
    colours are not empty, the cursor is [>= 0] and, when there are items,
    [< len(items)]. *)
Theorem interface_keeps_states_well_formed
    (cfg : Config any) (ops : list (Op any KeyMsg)) :
  (len (Items cfg) <= GoInt.max_int)%Z ->
  Forall op_fits ops ->
  exists m',
    run_ops KeyMsg_String (New cfg) ops = Ok m' /\ reachable_shape m'.
Proof.
  intros Hlen Hfits. apply run_ops_shape; [|exact Hfits].
  apply New_shape. exact Hlen.
Qed.

End Reachable.

(** ** Rendering: what [View] calls and when it returns *)

Lemma index_Ok_inv {A} (s : slice A) (i : Z) (a : A) :
  index s i = Ok a ->
  (0 <= i < len s)%Z /\ nth_error (elems s) (Z.to_nat i) = Some a.
Proof.
  unfold index. destruct (i <? 0)%Z eqn:E1; [discriminate|].
  destruct (i >=? len s)%Z eqn:E2; [discriminate|]. simpl.
  destruct (nth_error (elems s) (Z.to_nat i)) eqn:E; [|discriminate].
  intros H. inversion H; subst. split; [lia | reflexivity].
Qed.

Section MoreRendering.
Context {any : Type} {L : Lipgloss} {X : Xansi}.

Lemma bind_runs {A B} (c : M A) (f : A -> M B)
    (l1 l2 : list (Call any)) (a : A) (b : B) :
  c = (l1, Ok a) -> f a = (l2, Ok b) -> bind c f = ((l1 ++ l2)%list, Ok b).
Proof. intros -> H. unfold bind. rewrite H. reflexivity. Qed.

Lemma bind_panics {A B} (c : M A) (f : A -> M B)
    (l : list (Call any)) (why : string) :
  c = (l, Panic why) -> bind c f = (l, Panic why).
Proof. intros ->. reflexivity. Qed.

Lemma render_calls_app (l1 l2 : list (Call any)) :
  render_calls (l1 ++ l2) = (render_calls l1 ++ render_calls l2)%list.
Proof. apply flat_map_app. Qed.

Lemma ghost_calls_app (l1 l2 : list (Call any)) :
  filter is_ghost_call (l1 ++ l2)
  = (filter is_ghost_call l1 ++ filter is_ghost_call l2)%list.
Proof. apply filter_app. Qed.

(** The loop of [MarkedCount] with a delegate: one [IsMarked] call per
    item, and the count of the marked ones added to the counter. *)
Lemma MarkedCount_loop_ok (d : ItemDelegate any) (l : list any) (count : Z) :
  (0 <= count)%Z ->
  (count + Z.of_nat (List.length l) <= GoInt.max_int)%Z ->
  MarkedCount_loop (Some d) l count =
  (map (@CallIsMarked any) l,
   Ok (count + Z.of_nat (List.length (filter (IsMarked d) l)))%Z).
Proof.
  revert count. induction l as [|item rest IH]; intros count H0 Hfit.
  - simpl. unfold ret. do 2 f_equal. lia.
  - cbn [MarkedCount_loop delegate_IsMarked]. unfold bind.
    cbn [List.length] in Hfit.
    assert (Hadd : GoInt.add count 1 = (count + 1)%Z).
    { unfold GoInt.add. apply wrap_small. int_range. }
    rewrite IH.
    + cbn [map filter app]. destruct (IsMarked d item); cbn [List.length].
      * rewrite Hadd. do 2 f_equal. lia.
      * reflexivity.
    + destruct (IsMarked d item); lia.
    + destruct (IsMarked d item); lia.
Qed.

Lemma IsMarked_calls_plain (l : list any) :
  render_calls (map (@CallIsMarked any) l) = [] /\
  filter is_ghost_call (map (@CallIsMarked any) l) = [].
Proof. induction l as [|a l [IH1 IH2]]; simpl; auto. Qed.

(** [X11] With a delegate, [MarkedCount] asks it once about every item, in
    order, and returns the number of items it reports as marked, which lies
    between 0 and [len(items)]. *)
Theorem MarkedCount_counts (m : Model any) (d : ItemDelegate any) :
  delegate m = Some d ->
  (len (items m) <= GoInt.max_int)%Z ->
  MarkedCount m =
    (map (@CallIsMarked any) (elems (items m)),
     Ok (Z.of_nat (List.length (filter (IsMarked d) (elems (items m)))))) /\
  (0 <= Z.of_nat (List.length (filter (IsMarked d) (elems (items m))))
     <= len (items m))%Z.
Proof.
  intros Hd Hlen. unfold MarkedCount. rewrite Hd. split.
  - rewrite MarkedCount_loop_ok; [reflexivity | lia | exact Hlen].
  - pose proof (filter_length_le (IsMarked d) (elems (items m))).
    unfold len. lia.
Qed.

(** [X12] Without a delegate (a nil [Config.Delegate]) [View] of a
    non-empty carousel panics on its first delegate call, before any call
    to the styling library. *)
Theorem View_nil_delegate_panics (m : Model any) :
  delegate m = None -> len (items m) <> 0%Z ->
  View m = ([], Panic "nil pointer dereference").
Proof.
  intros Hd Hn. unfold View. apply Z.eqb_neq in Hn. rewrite Hn.
  apply bind_panics. unfold MarkedCount. rewrite Hd.
  apply Z.eqb_neq in Hn. unfold len in Hn.
  destruct (elems (items m)) as [|item rest]; [simpl in Hn; lia|].
  reflexivity.
Qed.

(** One card, with a delegate and an index inside the slice. *)
Lemma renderCard_ok (m : Model any) (d : ItemDelegate any) (i cardW cardH : Z)
    (active : bool) (item : any) :
  delegate m = Some d -> index (items m) i = Ok item ->
  exists log out,
    renderCard m i cardW cardH active = (log, Ok out) /\
    render_calls log = [(item, GoInt.sub cardW 2)] /\
    filter is_ghost_call log = [].
Proof.
  intros Hd Hi. unfold renderCard. rewrite Hi, Hd.
  destruct active; [|destruct (IsMarked d item) eqn:Em];
    cbn; rewrite ?Em; cbn; eexists _, _;
    (split; [reflexivity | split; reflexivity]).
Qed.

Lemma renderCard_Ok_inv (m : Model any) (i cardW cardH : Z) (active : bool)
    (log : list (Call any)) (out : string) :
  renderCard m i cardW cardH active = (log, Ok out) ->
  (0 <= i < len (items m))%Z.
Proof.
  unfold renderCard. destruct (index (items m) i) as [item | why] eqn:Ei.
  - intros _. apply (index_Ok_inv _ _ _ Ei).
  - discriminate.
Qed.

Lemma dots_ok (cur : Z) (a b : Color) (l : list nat) :
  exists (log : list (Call any)) out,
    mapM (fun i : nat =>
            if (Z.of_nat i =? cur)%Z
            then style_render (NewStyle .> Foreground a) "●"
            else style_render (NewStyle .> Foreground b) "○") l
    = (log, Ok out) /\
    render_calls log = [] /\ filter is_ghost_call log = [].
Proof.
  induction l as [|i l (log & out & Hrun & Hr & Hg)].
  - eexists _, _. split; [reflexivity | split; reflexivity].
  - cbn [mapM].
    destruct (Z.of_nat i =? cur)%Z; eexists _, _;
      (split;
       [ eapply bind_runs; [reflexivity|];
         eapply bind_runs; [exact Hrun | reflexivity]
       | rewrite !render_calls_app, !ghost_calls_app, Hr, Hg;
         split; reflexivity ]).
Qed.

Lemma renderFooter_ok (m : Model any) (navHint : string) :
  exists log out,
    renderFooter m navHint = (log, Ok out) /\
    render_calls log = [] /\ filter is_ghost_call log = [].
Proof.
  unfold renderFooter.
  destruct (negb (String.eqb (extraFooter m) "")); cbn; eexists _, _;
    (split; [reflexivity | split; reflexivity]).
Qed.

(** [View] on a non-empty carousel with a delegate and a valid cursor: it
    returns, its [Render] calls are those of the shown cards, and it draws a
    ghost card on each side that has no neighbour. *)
Lemma View_valid_run (m : Model any) (d : ItemDelegate any) :
  delegate m = Some d ->
  (len (items m) <= GoInt.max_int)%Z ->
  cursor_in_range m ->
  exists log out,
    View m = (log, Ok out) /\
    Forall2 (fun call i =>
               nth_error (elems (items m)) (Z.to_nat i) = Some (fst call) /\
               snd call = (Layout.centerW (width m) - 2)%Z)
            (render_calls log)
            (shown_indices (cursor m) (len (items m))) /\
    filter is_ghost_call log =
      ((if (cursor m =? 0)%Z
        then [CallStyleRender (ghost_style (Layout.centerW (width m))
                                 (Layout.cardContentH (width m))) ""]
        else []) ++
       (if (cursor m =? len (items m) - 1)%Z
        then [CallStyleRender (ghost_style (Layout.centerW (width m))
                                 (Layout.cardContentH (width m))) ""]
        else []))%list.
Proof.
  intros Hd Hlen Hinv. pose proof Hinv as Hinv'.
  unfold cursor_in_range in Hinv'.
  pose proof (centerW_bounds (width m)) as Hcw.
  assert (Hn1 : GoInt.sub (len (items m)) 1 = (len (items m) - 1)%Z).
  { unfold GoInt.sub. apply wrap_small. int_range. }
  assert (Hiw : GoInt.sub (Layout.centerW (width m)) 2
                = (Layout.centerW (width m) - 2)%Z).
  { unfold GoInt.sub. apply wrap_small. int_range. }
  pose proof (MarkedCount_loop_ok d (elems (items m)) 0 ltac:(lia) Hlen) as HM.
  destruct (IsMarked_calls_plain (elems (items m))) as [HMr HMg].
  destruct (dots_ok (cursor m) (activeColor m) (defaultColor m)
              (seq 0 (Z.to_nat (len (items m)))))
    as (ld & od & Hdots & Hdr & Hdg).
  destruct (index_ok (items m) (cursor m) Hinv') as (ci & Hcnth & Hci).
  destruct (renderCard_ok m d (cursor m) (Layout.centerW (width m))
              (Layout.cardContentH (width m)) true ci Hd Hci)
    as (lc & oc & Hc & Hcr & Hcg).
  destruct (renderFooter_ok m
              (View_navHint (cursor m) (len (items m))))
    as (lf & ofoot & Hf & Hfr & Hfg).
  unfold View, shown_indices. rewrite Hn1.
  destruct (len (items m) =? 0)%Z eqn:En; [lia|].
  cbv zeta.
  destruct (cursor m >? 0)%Z eqn:El; destruct (cursor m <? len (items m) - 1)%Z eqn:Er.
  all: try (assert (Hsub : GoInt.sub (cursor m) 1 = (cursor m - 1)%Z)
             by (unfold GoInt.sub; apply wrap_small; int_range);
            destruct (index_ok (items m) (cursor m - 1) ltac:(lia))
              as (li & Hlnth & Hli);
            destruct (renderCard_ok m d (cursor m - 1) (Layout.centerW (width m))
                        (Layout.cardContentH (width m)) false li Hd Hli)
              as (ll & oleft & Hl & Hlr & Hlg);
            rewrite Hsub).
  all: try (assert (Hadd : GoInt.add (cursor m) 1 = (cursor m + 1)%Z)
             by (unfold GoInt.add; apply wrap_small; int_range);
            destruct (index_ok (items m) (cursor m + 1) ltac:(lia))
              as (ri & Hrnth & Hri);
            destruct (renderCard_ok m d (cursor m + 1) (Layout.centerW (width m))
                        (Layout.cardContentH (width m)) false ri Hd Hri)
              as (lr & oright & Hr & Hrr & Hrg);
            rewrite Hadd).
  all: eexists _, _; split;
    [ eapply bind_runs; [unfold MarkedCount; rewrite Hd; exact HM|];
      eapply bind_runs; [exact Hdots|];
      eapply bind_runs; [reflexivity|];
      eapply bind_runs; [reflexivity|];
      eapply bind_runs; [exact Hc|];
      eapply bind_runs;
        [first [ eapply bind_runs; [exact Hl | reflexivity]
               | eapply bind_runs; [reflexivity | reflexivity] ]|];
      eapply bind_runs;
        [first [ eapply bind_runs; [exact Hr | reflexivity]
               | eapply bind_runs; [reflexivity | reflexivity] ]|];
      eapply bind_runs; [reflexivity|];
      eapply bind_runs; [exact Hf | reflexivity]
    | ].
  all: rewrite !render_calls_app, !ghost_calls_app.
  all: rewrite ?HMr, ?HMg, ?Hdr, ?Hdg, ?Hcr, ?Hcg, ?Hlr, ?Hlg, ?Hrr, ?Hrg,
         ?Hfr, ?Hfg, ?Hiw.
  all: cbn [render_calls flat_map filter is_ghost_call ghost_style with_opt
            NewStyle app String.eqb Ascii.eqb Bool.eqb fst snd].
  all: assert (E0 : (cursor m =? 0)%Z = negb (cursor m >? 0)%Z)
         by (rewrite El; cbn [negb]; lia).
  all: assert (E1 : (cursor m =? len (items m) - 1)%Z
                    = negb (cursor m <? len (items m) - 1)%Z)
         by (rewrite Er; cbn [negb]; lia).
  all: rewrite E0, E1, El, Er; cbn [negb app].
  all: split; [repeat constructor; assumption | reflexivity].
Qed.

End MoreRendering.

Section ViewProperties.
Context {any : Type} {L : Lipgloss} {X : Xansi}.

(** [X13] On a non-empty carousel with a delegate, [View] returns normally
    exactly when the cursor is a valid index; with a cursor outside
    [0 .. len(items)-1] it panics. *)
Theorem View_returns_iff_cursor_in_range (m : Model any)
    (d : ItemDelegate any) :
  delegate m = Some d ->
  (0 < len (items m) <= GoInt.max_int)%Z ->
  ((exists log out, View m = (log, Ok out)) <-> cursor_in_range m).
Proof.
  intros Hd Hlen. split.
  - intros (log & out & HV). unfold View in HV.
    destruct (len (items m) =? 0)%Z eqn:En; [lia|].
    repeat (apply bind_Ok_inv in HV;
            destruct HV as (? & ? & ? & ? & HV & ->)).
    match goal with
    | Hc : renderCard m (cursor m) _ _ true = _ |- _ =>
        apply renderCard_Ok_inv in Hc; exact Hc
    end.
  - intros Hinv.
    destruct (View_valid_run m d Hd ltac:(lia) Hinv) as (log & out & HV & _).
    exists log, out. exact HV.
Qed.

(** [X14] When [View] renders a carousel with a valid cursor, its calls of
    [Delegate.Render] are, in this order, the active item, the left
    neighbour if the cursor is not 0 and the right neighbour if it is not
    the last index: at most three items, each with the inner width
    [centerW - 2]. *)
Theorem View_renders_shown_cards (m : Model any) (d : ItemDelegate any)
    (log : list (Call any)) (out : string) :
  delegate m = Some d ->
  (len (items m) <= GoInt.max_int)%Z ->
  cursor_in_range m ->
  View m = (log, Ok out) ->
  Forall2 (fun call i =>
             nth_error (elems (items m)) (Z.to_nat i) = Some (fst call) /\
             snd call = (Layout.centerW (width m) - 2)%Z)
          (render_calls log)
          (shown_indices (cursor m) (len (items m))).
Proof.
  intros Hd Hlen Hinv HV.
  destruct (View_valid_run m d Hd Hlen Hinv) as (log' & out' & HV' & Hr & _).
  rewrite HV in HV'. inversion HV'; subst. exact Hr.
Qed.

(** [X15] [View] draws a ghost card exactly on the sides without a
    neighbour: one when the cursor is 0, one when it is the last index (two
    for a single item, none in the middle), each with the width and height
    of the center card. *)
Theorem View_ghost_cards (m : Model any) (d : ItemDelegate any)
    (log : list (Call any)) (out : string) :
  delegate m = Some d ->
  (len (items m) <= GoInt.max_int)%Z ->
  cursor_in_range m ->
  View m = (log, Ok out) ->
  filter is_ghost_call log =
    ((if (cursor m =? 0)%Z
      then [CallStyleRender (ghost_style (Layout.centerW (width m))
                               (Layout.cardContentH (width m))) ""]
      else []) ++
     (if (cursor m =? len (items m) - 1)%Z
      then [CallStyleRender (ghost_style (Layout.centerW (width m))
                               (Layout.cardContentH (width m))) ""]
      else []))%list.
Proof.
  intros Hd Hlen Hinv HV.
  destruct (View_valid_run m d Hd Hlen Hinv) as (log' & out' & HV' & _ & Hg).
  rewrite HV in HV'. inversion HV'; subst. exact Hg.
Qed.

(** The height given to [SetSize] has no effect on what [View] returns or
    calls: the card height is derived from the width alone. *)
Remark View_ignores_height (m : Model any) (w h1 h2 : Z) :
  View (SetSize m w h1) = View (SetSize m w h2).
Proof. reflexivity. Qed.

Section OnReachable.
Context {KeyMsg : Type} (KeyMsg_String : KeyMsg -> string).

Lemma run_op_delegate (m m' : Model any) (op : Op any KeyMsg) :
  run_op KeyMsg_String m op = Ok m' -> delegate m' = delegate m.
Proof.
  destruct op as [msg | idx | its | w h]; simpl.
  - destruct (Update KeyMsg_String m msg) as [[m1 cmd] | why] eqn:Hu;
      [|discriminate].
    simpl. intros H. inversion H; subst.
    pose proof (Update_frame KeyMsg_String m m' msg cmd Hu) as Hf.
    unfold only_cursor_differs in Hf. rewrite Hf. reflexivity.
  - intros H. inversion H; subst. reflexivity.
  - intros H. inversion H; subst. unfold SetItems.
    destruct (_ && _); reflexivity.
  - intros H. inversion H; subst. reflexivity.
Qed.

Lemma run_ops_delegate (ops : list (Op any KeyMsg)) (m m' : Model any) :
  run_ops KeyMsg_String m ops = Ok m' -> delegate m' = delegate m.
Proof.
  revert m. induction ops as [|op rest IH]; intros m; simpl.
  - intros H. inversion H; subst. reflexivity.
  - destruct (run_op KeyMsg_String m op) as [m1 | why] eqn:Hop; [|discriminate].
    simpl. intros H. rewrite (IH _ H). apply (run_op_delegate _ _ _ Hop).
Qed.

(** [X16] A program that builds the carousel with [New] from a config with
    a delegate and then only calls [Update], [SetCursor], [SetItems] and
    [SetSize] can call [View] at any time: neither the calls nor [View]
    panic. *)
Theorem View_returns_on_reachable_states
    (cfg : Config any) (d : ItemDelegate any) (ops : list (Op any KeyMsg)) :
  Delegate cfg = Some d ->
  (len (Items cfg) <= GoInt.max_int)%Z ->
  Forall op_fits ops ->
  exists m' log out,
    run_ops KeyMsg_String (New cfg) ops = Ok m' /\
    View m' = (log, Ok out).
Proof.
  intros Hd Hlen Hfits.
  destruct (run_ops_shape KeyMsg_String ops (New cfg)
              (New_shape cfg Hlen) Hfits) as (m' & Hrun & Hshape).
  pose proof (run_ops_delegate _ _ _ Hrun) as Hdel. cbn [New delegate] in Hdel.
  rewrite Hd in Hdel.
  destruct Hshape as (_ & _ & _ & _ & Hlen' & Hc & Hlt).
  exists m'.
  destruct (Z.eq_dec (len (items m')) 0) as [H0 | Hpos].
  - exists [], "". split; [exact Hrun|]. unfold View. rewrite H0. reflexivity.
  - pose proof (len_nonneg (items m')) as Hnn.
    assert (Hinv : cursor_in_range m') by (unfold cursor_in_range; lia).
    destruct (View_valid_run m' d Hdel Hlen' Hinv) as (log & out & HV & _).
    exists log, out. split; [exact Hrun | exact HV].
Qed.

End OnReachable.

End ViewProperties.

(** ** More of the clipper *)

Section MoreClipper.
Context {X : Xansi}.

(** [X17] Under the contract of the library, clipping to the right edge
    twice is clipping once: [peekRight] is idempotent for every [n >= 0]. *)
Theorem peekRight_idempotent (HX : XansiContract X) (block : string) (n : Z) :
  (0 <= n)%Z ->
  Forall (fun line => (StringWidth line <= GoInt.max_int)%Z)
         (strings_Split block "010") ->
  peekRight (peekRight block n) n = peekRight block n.
Proof.
  intros Hn Hfit. apply peekRight_fits.
  rewrite (peekRight_lines HX). apply Forall_map.
  eapply Forall_impl; [|exact Hfit].
  intros line Hline. cbv beta in *.
  destruct (peekRight_line_spec HX n line Hn Hline) as [Hw _].
  rewrite Hw. lia.
Qed.

(** [X18] Under the contract of the library, [peekRight] keeps the number
    of lines of a block, so a clipped card stays as tall as the card. *)
Theorem peekRight_keeps_line_count (HX : XansiContract X)
    (block : string) (n : Z) :
  List.length (strings_Split (peekRight block n) "010")
  = List.length (strings_Split block "010").
Proof. rewrite (peekRight_lines HX). apply length_map. Qed.

(** [X19] [peekLeft] truncates line by line: provided [Truncate] adds no
    line break to a line that has none, the lines of [peekLeft block n] are
    those of [block], each cut by [Truncate(line, n, "")], in the same
    number and order. *)
Theorem peekLeft_lines (block : string) (n : Z) :
  (forall line, contains_byte "010" line = false ->
                contains_byte "010" (Truncate line n "") = false) ->
  strings_Split (peekLeft block n) "010" =
  map (fun line => Truncate line n "") (strings_Split block "010").
Proof.
  intros Hclean. unfold peekLeft. apply Split_Join.
  - pose proof (Split_nonempty block "010").
    destruct (strings_Split block "010"); [congruence | discriminate].
  - apply Forall_map.
    eapply Forall_impl; [|apply Split_pieces_clean].
    intros line Hl. apply Hclean. exact Hl.
Qed.

End MoreClipper.

(** ** One card *)

Section OneCard.
Context {any : Type} {L : Lipgloss} {X : Xansi}.

(** [X20] [renderCard] asks the delegate for the content at the inner width
    [cardW - 2] and draws it in a rounded border whose colour is the active
    colour for the active card, else the marked colour if the delegate
    reports the item as marked, else the default colour; inactive cards are
    dimmed.  For the active card [IsMarked] is not consulted. *)
Theorem renderCard_style (m : Model any) (d : ItemDelegate any)
    (i cardW cardH : Z) (active : bool) (item : any) :
  delegate m = Some d ->
  index (items m) i = Ok item ->
  (GoInt.min_int + 2 <= cardW <= GoInt.max_int)%Z ->
  let colour :=
    if active then activeColor m
    else if IsMarked d item then markedColor m else defaultColor m in
  let style :=
    ([Border RoundedBorder; BorderForeground colour]
       ++ (if active then [] else [Foreground "242"])
       ++ [Width cardW; Height cardH; Padding 1 1])%list in
  let content := Render d item (cardW - 2) in
  renderCard m i cardW cardH active =
    ((CallRender item (cardW - 2)
        :: (if active then [] else [CallIsMarked item])
        ++ [CallStyleRender style content])%list,
     Ok (Style_Render style content)).
Proof.
  intros Hd Hi Hw. unfold renderCard. rewrite Hi, Hd.
  assert (Hs : GoInt.sub cardW 2 = (cardW - 2)%Z).
  { unfold GoInt.sub. apply wrap_small. int_range. }
  rewrite Hs.
  destruct active; [|destruct (IsMarked d item) eqn:Em];
    cbn; rewrite ?Em; reflexivity.
Qed.

End OneCard.

(** ** The further properties at concrete inputs *)

Lemma demo_model_valid :
  (len (items demo_model) <= GoInt.max_int)%Z /\ cursor_in_range demo_model.
Proof.
  unfold cursor_in_range. rewrite demo_model_len. simpl. int_consts. lia.
Qed.

Lemma last_model_valid :
  (len (items (SetCursor demo_model 2)) <= GoInt.max_int)%Z /\
  cursor_in_range (SetCursor demo_model 2).
Proof.
  unfold cursor_in_range.
  change (len (items (SetCursor demo_model 2))) with 3%Z.
  change (cursor (SetCursor demo_model 2)) with 2%Z. int_consts. lia.
Qed.

Lemma Update_moves_by_one_witness :
  Update demo_key demo_model "right" = Ok (set_cursor demo_model 1, None) /\
  Update demo_key (SetCursor demo_model 2) "h"
    = Ok (set_cursor (SetCursor demo_model 2) 1, None).
Proof.
  destruct demo_model_valid as [Hl Hv]. destruct last_model_valid as [Hl' Hv'].
  destruct (Update_moves_by_one demo_key demo_model "right" Hl Hv)
    as [_ Hright].
  destruct (Update_moves_by_one demo_key (SetCursor demo_model 2) "h" Hl' Hv')
    as [Hleft _].
  split.
  - apply Hright; [left; reflexivity | rewrite demo_model_len; simpl; lia].
  - apply Hleft; [right; reflexivity | simpl; lia].
Defined.

Lemma Update_moves_round_trip_witness :
  Update_all demo_key demo_model ["l"; "left"] = Ok demo_model /\
  Update_all demo_key (SetCursor demo_model 2) ["h"; "right"]
    = Ok (SetCursor demo_model 2).
Proof.
  destruct demo_model_valid as [Hl Hv]. destruct last_model_valid as [Hl' Hv'].
  split.
  - apply (Update_moves_round_trip demo_key demo_model "left" "l" Hl Hv);
      [left; reflexivity | right; reflexivity
      | rewrite demo_model_len; simpl; lia].
  - apply (Update_moves_round_trip demo_key (SetCursor demo_model 2)
             "h" "right" Hl' Hv');
      [right; reflexivity | left; reflexivity | simpl; lia].
Defined.

Lemma Update_repeated_moves_witness :
  Update_all demo_key demo_model (repeat "right" 7)
    = Ok (set_cursor demo_model 2) /\
  Update_all demo_key (SetCursor demo_model 2) (repeat "h" 1)
    = Ok (set_cursor demo_model 1).
Proof.
  destruct demo_model_valid as [Hl Hv]. destruct last_model_valid as [Hl' Hv'].
  destruct (Update_repeated_moves demo_key 7 demo_model "right" Hl Hv)
    as [Hr _].
  destruct (Update_repeated_moves demo_key 1 (SetCursor demo_model 2) "h"
              Hl' Hv') as [_ Hleft].
  split.
  - rewrite Hr by (left; reflexivity). reflexivity.
  - rewrite Hleft by (right; reflexivity). reflexivity.
Defined.

Lemma Update_changes_only_cursor_witness :
  only_cursor_differs demo_model (set_cursor demo_model 1).
Proof.
  apply (Update_changes_only_cursor demo_key demo_model
           (set_cursor demo_model 1) "right" None).
  reflexivity.
Defined.

Lemma Update_command_iff_select_witness :
  exists m' cmd,
    Update demo_key demo_model "esc" = Ok (m', cmd) /\
    (cmd <> None <-> is_select (demo_key "esc")).
Proof.
  apply Update_command_iff_select. apply demo_model_valid.
Defined.

Lemma SetCursor_clamps_witness :
  cursor (SetCursor demo_model 7) = 2%Z /\
  cursor (SetCursor demo_model (-4)) = 0%Z /\
  cursor (SetCursor empty_model 7) = 7%Z.
Proof.
  destruct demo_model_valid as [Hl _].
  destruct (SetCursor_clamps demo_model 7 Hl) as (H7 & _ & _).
  destruct (SetCursor_clamps demo_model (-4) Hl) as (H4 & _ & _).
  destruct (SetCursor_clamps empty_model 7) as (_ & He & _).
  { change (len (items empty_model)) with 0%Z. int_consts. lia. }
  split; [|split].
  - rewrite H7 by (rewrite demo_model_len; lia). reflexivity.
  - rewrite H4 by (rewrite demo_model_len; lia). reflexivity.
  - rewrite He by reflexivity. reflexivity.
Defined.

Lemma demo_ops_fit : Forall (@op_fits nat string) demo_ops.
Proof.
  unfold demo_ops.
  repeat (constructor; [first [exact I | vm_compute; discriminate]|]).
  constructor.
Qed.

Lemma interface_keeps_states_well_formed_witness :
  exists m',
    run_ops demo_key (New (demo_config (mk_slice [10; 11; 12]%nat))) demo_ops
      = Ok m' /\
    reachable_shape m'.
Proof.
  apply interface_keeps_states_well_formed.
  - vm_compute. discriminate.
  - exact demo_ops_fit.
Defined.

Lemma MarkedCount_counts_witness :
  MarkedCount demo_model =
    ([CallIsMarked 10%nat; CallIsMarked 11%nat; CallIsMarked 12%nat], Ok 2%Z).
Proof.
  destruct demo_model_valid as [Hl _].
  destruct (MarkedCount_counts demo_model demo_delegate eq_refl Hl) as [H _].
  rewrite H. reflexivity.
Defined.

Lemma View_nil_delegate_panics_witness :
  @View nat plain_lipgloss ansi_xansi nil_delegate_model
    = ([], Panic "nil pointer dereference").
Proof.
  apply View_nil_delegate_panics; [reflexivity | discriminate].
Defined.

Lemma View_returns_iff_cursor_in_range_witness :
  (exists log out,
     @View nat plain_lipgloss ansi_xansi demo_model = (log, Ok out)) /\
  ~ (exists log out,
       @View nat plain_lipgloss ansi_xansi (set_cursor demo_model 3)
         = (log, Ok out)).
Proof.
  assert (Hn : (0 < 3 <= GoInt.max_int)%Z) by (int_consts; lia).
  split.
  - apply (@View_returns_iff_cursor_in_range nat plain_lipgloss ansi_xansi
             demo_model demo_delegate eq_refl Hn).
    apply demo_model_valid.
  - intros H.
    apply (@View_returns_iff_cursor_in_range nat plain_lipgloss ansi_xansi
             (set_cursor demo_model 3) demo_delegate eq_refl Hn) in H.
    unfold cursor_in_range in H. destruct H as [_ H].
    vm_compute in H. discriminate.
Defined.

Lemma View_renders_shown_cards_witness :
  Forall2 (fun call i =>
             nth_error [10; 11; 12]%nat (Z.to_nat i) = Some (fst call) /\
             snd call = 42%Z)
          (render_calls
             (fst (@View nat plain_lipgloss ansi_xansi
                     (SetCursor demo_model 1))))
          [1; 0; 2]%Z.
Proof.
  destruct (@View nat plain_lipgloss ansi_xansi (SetCursor demo_model 1))
    as [log [out | why]] eqn:E; [|vm_compute in E; discriminate].
  apply (@View_renders_shown_cards nat plain_lipgloss ansi_xansi
           (SetCursor demo_model 1) demo_delegate log out eq_refl).
  - vm_compute. discriminate.
  - split; vm_compute; [discriminate | reflexivity].
  - exact E.
Defined.

Lemma View_ghost_cards_witness :
  filter is_ghost_call
    (fst (@View nat plain_lipgloss ansi_xansi single_model))
  = [CallStyleRender (ghost_style 44 13) "";
     CallStyleRender (ghost_style 44 13) ""].
Proof.
  destruct (@View nat plain_lipgloss ansi_xansi single_model)
    as [log [out | why]] eqn:E; [|vm_compute in E; discriminate].
  apply (@View_ghost_cards nat plain_lipgloss ansi_xansi
           single_model demo_delegate log out eq_refl).
  - vm_compute. discriminate.
  - split; vm_compute; [discriminate | reflexivity].
  - exact E.
Defined.

Lemma View_returns_on_reachable_states_witness :
  exists m' log out,
    run_ops demo_key (New (demo_config (mk_slice [10; 11; 12]%nat))) demo_ops
      = Ok m' /\
    @View nat plain_lipgloss ansi_xansi m' = (log, Ok out).
Proof.
  apply (@View_returns_on_reachable_states nat plain_lipgloss ansi_xansi
           string demo_key _ demo_delegate).
  - reflexivity.
  - vm_compute. discriminate.
  - exact demo_ops_fit.
Defined.

Lemma demo_block_fits :
  Forall (fun line => (ansi_StringWidth line <= GoInt.max_int)%Z)
         (strings_Split demo_block "010").
Proof. repeat constructor; vm_compute; discriminate. Qed.

Lemma peekRight_idempotent_witness :
  @peekRight ansi_xansi (@peekRight ansi_xansi demo_block 3) 3
  = @peekRight ansi_xansi demo_block 3.
Proof.
  apply (peekRight_idempotent ansi_xansi_contract).
  - lia.
  - exact demo_block_fits.
Defined.

Lemma peekRight_keeps_line_count_witness :
  List.length (strings_Split (@peekRight ansi_xansi demo_block 3) "010")
  = 2%nat.
Proof.
  rewrite (peekRight_keeps_line_count ansi_xansi_contract). reflexivity.
Defined.

Lemma append_empty (s : string) : s ++ "" = s.
Proof. induction s as [|c s IH]; simpl; [reflexivity | rewrite IH; reflexivity]. Qed.

Lemma ansi_take_clean (c : ascii) (s : string) (st : ansi_state) (k : nat) :
  contains_byte c s = false -> contains_byte c (ansi_take st k s) = false.
Proof.
  revert st k. induction s as [|c' s IH]; intros st k H; [reflexivity|].
  simpl in H. apply orb_false_iff in H. destruct H as [Hc Hs].
  simpl. destruct (ansi_step st c') as [st' printed].
  destruct printed; [destruct k|]; simpl; rewrite ?Hc; apply IH; exact Hs.
Qed.

Lemma peekLeft_lines_witness :
  strings_Split (@peekLeft ansi_xansi demo_block 2) "010"
  = [red ++ "ab" ++ reset; "xy"].
Proof.
  rewrite (@peekLeft_lines ansi_xansi).
  - reflexivity.
  - intros line H. simpl. unfold ansi_Truncate.
    destruct (ansi_StringWidth line <=? 2)%Z; [exact H|].
    rewrite append_empty. apply ansi_take_clean. exact H.
Defined.

Lemma renderCard_style_witness :
  @renderCard nat plain_lipgloss demo_model 1 44 13 false
  = ([CallRender 11%nat 42; CallIsMarked 11%nat;
      CallStyleRender
        [Border RoundedBorder; BorderForeground "240"; Foreground "242";
         Width 44; Height 13; Padding 1 1] "11"],
     Ok "11").
Proof.
  rewrite (@renderCard_style nat plain_lipgloss demo_model demo_delegate
             1 44 13 false 11%nat eq_refl eq_refl).
  - reflexivity.
  - int_consts. lia.
Defined.

(** ** Clipping with a library that removes whole cells *)



Section CellClipping.
Variable col : ascii -> nat.
Hypothesis col_le_2 : forall c, (col c <= 2)%nat.







(** The original wording fails where a cell of two columns straddles the
    cut: ["日本"] is four columns wide, [peekRight] asks the library to
    remove three of them to keep one, the library removes ["日"] and keeps
    ["本"] whole, and the result is two columns wide, not
    [min(1, 4) = 1]. *)
Example peekRight_nihon :
  @peekRight (cell_xansi utf8_col) nihon 1 = "本" /\
  cell_StringWidth utf8_col nihon = 4%Z /\
  cell_StringWidth utf8_col "本" = 2%Z.
Proof. repeat split; reflexivity. Qed.

End CellClipping.




Example peekRight_wide_block :
  @peekRight (cell_xansi utf8_col) wide_block 3
  = red ++ "本語" ++ reset ++ NL ++ "ab".
Proof. reflexivity. Qed.
